(** * Battery models and capacity search of CarbonExplorer (src/battery.py)

    A shallow embedding of [battery.py] and the properties its
    specification states about it.

    Numbers.  The program computes on Python floats.  The main embedding
    works over exact rationals [Q]: every decimal literal of the source
    is the rational it denotes ([0.1] is [1#10], [0.98] is [49#50], ...).
    The one non-rational float value the program manipulates on purpose,
    [np.nan], is an explicit constructor of the type [num].  A
    [ZeroDivisionError] is the outcome [None] of the operation that raises
    it.  Rounding is not part of that embedding; a second one, [F64],
    repeats the batteries, the simulator and the sizers on binary64 and
    serves to evaluate the code where rounding decides a comparison.  A
    statement whose truth would hinge on a tight comparison leaves a
    margin, is conditional where a loop need not be left, or is stated on
    whole numbers, on which both arithmetics agree.

    Series.  [df_ren] and [df_dc_pow["avg_dc_power_mw"]] are read at the
    same index [i] in every loop; the two index-aligned series are one
    list of rows [(ren_mw, df_dc)]. *)

From Stdlib Require Import QArith Qround Lqa ZArith Lia ZifyNat List Bool.
From Stdlib Require Import Floats.
Import ListNotations.

Local Open Scope Q_scope.

(** ** Comparisons and Python built-ins on rationals *)

Definition Qltb (x y : Q) : bool := negb (Qle_bool y x).
Definition Qgtb (x y : Q) : bool := Qltb y x.

(** Python's [min(a, b)]: the first argument unless the second is smaller. *)
Definition py_min (a b : Q) : Q := if Qltb b a then b else a.

(** ** Fallible computations: [None] is a raised exception *)

Definition bind {A B : Type} (m : option A) (k : A -> option B) : option B :=
  match m with
  | Some a => k a
  | None => None
  end.

Notation "x <- m ;; k" := (bind m (fun x => k))
  (at level 61, m at next level, right associativity).
Notation "' p <- m ;; k" := (bind m (fun x => let p := x in k))
  (at level 61, p pattern, m at next level, right associativity).

(** Float division: a zero divisor raises [ZeroDivisionError]. *)
Definition py_div (a b : Q) : option Q :=
  if Qeq_bool b 0 then None else Some (a / b).

(** ** The lossless battery: [class Battery] *)

Module Battery.

Record t : Type := Build {
  capacity : Q;      (* Max MWh storage capacity *)
  current_load : Q   (* Current load in the battery, in MWh *)
}.

Definition set_current_load (b : t) (l : Q) : t :=
  Build (capacity b) l.

(** [charge]: the state after the call and the returned total load. *)
Definition charge (b : t) (input_load : Q) : t * Q :=
  let b1 := set_current_load b (current_load b + input_load) in
  let b2 := if Qgtb (current_load b1) (capacity b1)
            then set_current_load b1 (capacity b1)
            else b1 in
  (b2, current_load b2).

(** [discharge]: the state after the call and the energy delivered. *)
Definition discharge (b : t) (output_load : Q) : t * Q :=
  let b1 := set_current_load b (current_load b - output_load) in
  if Qltb (current_load b1) 0 then
    let lacking_amount := current_load b1 in
    (set_current_load b1 0, output_load + lacking_amount)
  else (b1, output_load).

Definition is_full (b : t) : bool :=
  Qeq_bool (capacity b) (current_load b).

Definition find_and_init_capacity (b : t) (input_load : Q) : t :=
  Build (capacity b + input_load) (current_load b).

(** The state invariant of the specification. *)
Definition within_bounds (b : t) : Prop :=
  0 <= current_load b /\ current_load b <= capacity b.

End Battery.

(** ** The lossy, rate-limited battery: [class Battery2] *)

Module Battery2.

Record t : Type := Build {
  capacity : Q;
  current_load : Q;
  eff_c : Q;         (* charging efficiency *)
  eff_d : Q;         (* discharging efficiency *)
  upper_lim_u : Q;
  upper_lim_v : Q;
  lower_lim_u : Q;
  lower_lim_v : Q
}.

(** [Battery2(capacity, current_load)] with the constructor's defaults
    (lithium NMC cell). *)
Definition init (capacity current_load : Q) : t :=
  Build capacity current_load
        (49 # 50) (21 # 20) (- (1 # 8)) 1 (1 # 20) 0.

Definition set_current_load (b : t) (l : Q) : t :=
  Build (capacity b) l (eff_c b) (eff_d b)
        (upper_lim_u b) (upper_lim_v b) (lower_lim_u b) (lower_lim_v b).

Definition set_capacity (b : t) (c : Q) : t :=
  Build c (current_load b) (eff_c b) (eff_d b)
        (upper_lim_u b) (upper_lim_v b) (lower_lim_u b) (lower_lim_v b).

Definition calc_max_charge (b : t) : option Q :=
  x <- py_div (capacity b) (eff_c b) ;;
  y <- py_div (upper_lim_v b * capacity b - current_load b)
              (eff_c b - upper_lim_u b) ;;
  Some (py_min x y).

Definition calc_max_discharge (b : t) : option Q :=
  x <- py_div (capacity b) (eff_d b) ;;
  y <- py_div (current_load b - lower_lim_v b * capacity b)
              (lower_lim_u b + eff_d b) ;;
  Some (py_min x y).

Definition charge (b : t) (input_load : Q) : option (t * Q) :=
  max_charge <- calc_max_charge b ;;
  let b' := set_current_load b
              (current_load b + py_min max_charge input_load * eff_c b) in
  Some (b', current_load b').

Definition discharge (b : t) (output_load : Q) : option (t * Q) :=
  max_discharge <- calc_max_discharge b ;;
  let b' := set_current_load b
              (current_load b - py_min max_discharge output_load * eff_d b) in
  if Qltb max_discharge output_load
  then Some (b', max_discharge)
  else Some (b', output_load).

Definition is_full (b : t) : bool :=
  Qeq_bool (capacity b) (current_load b).

(** The [while True] loop of [find_and_init_capacity].  [fuel] bounds the
    number of times the loop test is evaluated; the second component of
    the result counts the 0.1-increments performed (it is not a variable
    of the source). *)
Fixpoint grow_capacity (fuel : nat) (b : t) (new_capacity input_load : Q)
  : option (t * nat) :=
  match fuel with
  | O => None
  | S fuel' =>
      power_lim <- py_div (new_capacity - lower_lim_v b * capacity b)
                          (lower_lim_u b + eff_d b) ;;
      if Qltb power_lim input_load then
        '(b', n) <- grow_capacity fuel'
                      (set_capacity b (capacity b + (1 # 10)))
                      (new_capacity + (1 # 10)) input_load ;;
        Some (b', S n)
      else Some (b, O)
  end.

Definition find_and_init_capacity (fuel : nat) (b : t) (input_load : Q)
  : option t :=
  let b1 := set_capacity b (capacity b + input_load * eff_d b) in
  let new_capacity := input_load * eff_d b in
  '(b', _) <- grow_capacity fuel b1 new_capacity input_load ;;
  Some b'.

Definition within_bounds (b : t) : Prop :=
  0 <= current_load b /\ current_load b <= capacity b.

End Battery2.

(** ** The capability set shared by both battery models

    [sim_battery_247] only calls [b.charge] and [b.discharge]; either model
    can be passed for [b]. *)

Class BatteryLike (B : Type) : Type := {
  charge : B -> Q -> option (B * Q);
  discharge : B -> Q -> option (B * Q)
}.

#[export] Instance Battery_like : BatteryLike Battery.t := {
  charge b x := Some (Battery.charge b x);
  discharge b x := Some (Battery.discharge b x)
}.

#[export] Instance Battery2_like : BatteryLike Battery2.t := {
  charge := Battery2.charge;
  discharge := Battery2.discharge
}.

(** One row of the two aligned series: [(df_ren[i], df_dc_pow[...][i])]. *)
Definition row : Type := (Q * Q)%type.

(** ** [sim_battery_247] *)

Fixpoint sim_battery_247 {B : Type} `{BatteryLike B}
  (rows : list row) (b : B) : option bool :=
  match rows with
  | [] => Some true
  | (ren_mw, df_dc) :: rest =>
      let net_load := ren_mw - df_dc in
      if Qgtb net_load 0 then
        '(b', _) <- charge b net_load ;;
        sim_battery_247 rest b'
      else
        '(b', actual_discharge) <- discharge b (- net_load) ;;
        if Qltb actual_discharge (- net_load) then Some false
        else sim_battery_247 rest b'
  end.

(** ** Values that may be the [np.nan] sentinel *)

Inductive num : Type :=
| Num (q : Q)
| NaN.

(** [a != b] on floats: true as soon as one side is NaN. *)
Definition num_ne (a b : num) : bool :=
  match a, b with
  | Num x, Num y => negb (Qeq_bool x y)
  | _, _ => true
  end.

(** [a > b] on floats: false as soon as one side is NaN. *)
Definition num_gt (a b : num) : bool :=
  match a, b with
  | Num x, Num y => Qgtb x y
  | _, _ => false
  end.

(** Python's [max(a, b)]: the first argument unless the second is greater. *)
Definition py_max (a b : num) : num := if num_gt b a then b else a.

(** ** The binary-search sizers

    [calculate_247_battery_capacity_b2_sim] and
    [calculate_247_battery_capacity_b1_sim] are the same text up to the
    battery constructor; [make] stands for it. *)

Section Sizer.

Context {B : Type} `{BatteryLike B}.
Variable make : Q -> Q -> B.

(** The [while u - l > 0.1] loop.  [fuel] bounds the number of times the
    loop test is evaluated.  [med] is [None] while the variable is
    unbound.  The last component lists the candidates passed to the
    simulator, oldest first (it is not a variable of the source). *)
Fixpoint search_loop (fuel : nat) (rows : list row)
  (l u : Q) (med : option Q) (tested : list Q)
  : option (Q * Q * option Q * list Q) :=
  match fuel with
  | O => None
  | S fuel' =>
      if Qgtb (u - l) (1 # 10) then
        let med := (u + l) / 2 in
        ok <- sim_battery_247 rows (make med med) ;;
        if ok : bool
        then search_loop fuel' rows l med (Some med) (tested ++ [med])
        else search_loop fuel' rows med u (Some med) (tested ++ [med])
      else Some (l, u, med, tested)
  end.

Definition calculate_247_battery_capacity_sim
  (fuel : nat) (rows : list row) (max_bsize : Q) : option num :=
  ok0 <- sim_battery_247 rows (make 0 0) ;;
  if ok0 : bool then Some (Num 0)
  else
    '(_, u, med, _) <- search_loop fuel rows 0 max_bsize None [] ;;
    if Qeq_bool u max_bsize then Some NaN
    else
      m <- med ;;
      Some (Num m).

End Sizer.

Definition calculate_247_battery_capacity_b2_sim :=
  calculate_247_battery_capacity_sim Battery2.init.

Definition calculate_247_battery_capacity_b1_sim :=
  calculate_247_battery_capacity_sim Battery.Build.

(** Loop tests the search on [[0, max_bsize]] needs in exact arithmetic:
    the width halves at every iteration until it is at most 0.1. *)
Definition search_fuel (max_bsize : Q) : nat :=
  S (Z.to_nat (Z.log2_up (Qceiling (10 * max_bsize)))).

(** ** [calculate_247_battery_capacity] *)

Module Finder.

Record state : Type := Build {
  battery_cap : num;     (* return value stored here, capacity needed *)
  daily_net_load : Q;    (* for calculating infeasible cases *)
  b : Battery.t
}.

Definition init : state := Build (Num 0) 0 (Battery.Build 0 0).

Inductive outcome : Type :=
| Continue (s : state)
| Break (s : state).

(** The battery after the charge/discharge branch of iteration [i]. *)
Definition update_battery (b : Battery.t) (ren_mw df_dc : Q) : Battery.t :=
  if Qgtb df_dc ren_mw then
    if Qeq_bool (Battery.capacity b) 0 then
      Battery.find_and_init_capacity b (df_dc - ren_mw)
    else
      let load_before := Battery.current_load b in
      if Qeq_bool load_before 0 then
        Battery.find_and_init_capacity b (df_dc - ren_mw)
      else
        let b1 := fst (Battery.discharge b (df_dc - ren_mw)) in
        let load_after := Battery.current_load b1 in
        if Qeq_bool load_after 0 then
          Battery.find_and_init_capacity b1 ((df_dc - ren_mw) - load_before)
        else b1
  else
    if Qgtb (Battery.capacity b) 0 then
      fst (Battery.charge b (ren_mw - df_dc))
    else if Battery.is_full b then Battery.Build 0 0
    else b.

(** The running maximum after iteration [i]'s update. *)
Definition update_cap (battery_cap : num) (b : Battery.t) : num :=
  if Qgtb (Battery.capacity b) 0 && num_ne battery_cap NaN
  then py_max battery_cap (Num (Battery.capacity b))
  else battery_cap.

(** The body of the [for] loop at index [i]. *)
Definition body (i : nat) (s : state) (r : row) : outcome :=
  let '(ren_mw, df_dc) := r in
  let daily := daily_net_load s + (ren_mw - df_dc) in
  let b' := update_battery (b s) ren_mw df_dc in
  let cap' := update_cap (battery_cap s) b' in
  if Nat.eqb ((i + 1) mod 72) 0 then
    if Qltb daily 0 then Break (Build NaN daily b')
    else Continue (Build cap' 0 b')
  else Continue (Build cap' daily b').

(** The [for] loop from index [i] on, over the rows not yet read. *)
Fixpoint loop (i : nat) (s : state) (rows : list row) : state :=
  match rows with
  | [] => s
  | r :: rest =>
      match body i s r with
      | Break s' => s'
      | Continue s' => loop (S i) s' rest
      end
  end.

Definition calculate_247_battery_capacity (rows : list row) : num :=
  battery_cap (loop 0 init rows).

(** [at_start rows i s]: the loop reaches the start of iteration [i] in
    state [s] (also for [i = length rows], when the loop runs out). *)
Inductive at_start (rows : list row) : nat -> state -> Prop :=
| at_start_first : at_start rows 0 init
| at_start_next i s r s' :
    at_start rows i s ->
    nth_error rows i = Some r ->
    body i s r = Continue s' ->
    at_start rows (S i) s'.

(** The state at the start of iteration [n], computed; [None] when the
    loop has left before. *)
Fixpoint state_at (rows : list row) (n : nat) : option state :=
  match n with
  | O => Some init
  | S i =>
      s <- state_at rows i ;;
      r <- nth_error rows i ;;
      match body i s r with
      | Continue s' => Some s'
      | Break _ => None
      end
  end.

End Finder.

(** ** [apply_battery] *)

Fixpoint apply_loop (b : Battery2.t) (tot_non_ren_mw : Q) (rows : list row)
  : option Q :=
  match rows with
  | [] => Some tot_non_ren_mw
  | (ren_mw, df_dc) :: rest =>
      let gap := df_dc - ren_mw in
      if Qgtb gap 0 then
        '(b', discharged_amount) <- Battery2.discharge b gap ;;
        apply_loop b' (tot_non_ren_mw + gap - discharged_amount) rest
      else
        '(b', _) <- Battery2.charge b (- gap) ;;
        apply_loop b' tot_non_ren_mw rest
  end.

Definition apply_battery (battery_capacity : Q) (rows : list row) : option Q :=
  apply_loop (Battery2.init battery_capacity battery_capacity) 0 rows.

(** ** Quantities the specification talks about *)

(** The deficit of a row: facility draw minus renewable supply. *)
Definition deficit (r : row) : Q := snd r - fst r.

(** Sum over all steps of the positive deficits. *)
Fixpoint sum_positive_deficits (rows : list row) : Q :=
  match rows with
  | [] => 0
  | r :: rest =>
      (if Qgtb (deficit r) 0 then deficit r else 0)
      + sum_positive_deficits rest
  end.

(** The cumulative deficit after each step, starting from [d]: a deficit
    adds to it, a surplus reduces it, and it never goes below zero (there
    is nothing left to recover once every past deficit is made up for). *)
Definition cumulative_deficit_step (d : Q) (r : row) : Q :=
  let d' := d + deficit r in
  if Qltb d' 0 then 0 else d'.

(** The maximum the cumulative deficit reaches over the series. *)
Fixpoint max_cumulative_deficit_from (d : Q) (rows : list row) : Q :=
  match rows with
  | [] => d
  | r :: rest =>
      let d' := cumulative_deficit_step d r in
      let m := max_cumulative_deficit_from d' rest in
      if Qltb m d then d else m
  end.

Definition max_cumulative_deficit (rows : list row) : Q :=
  max_cumulative_deficit_from 0 rows.

(** Net load summed in the order the loop accumulates it. *)
Definition net_sum (rows : list row) : Q :=
  fold_left (fun acc r => acc + (fst r - snd r)) rows 0.

(** The rows of the 72-step window that index [i] belongs to, up to and
    including row [i]. *)
Definition window_upto (rows : list row) (i : nat) : list row :=
  let start := (i - i mod 72)%nat in
  firstn (S (i mod 72)) (skipn start rows).

(** A natural number as a rational. *)
Definition Qnat (n : nat) : Q := inject_Z (Z.of_nat n).

(** The simulator on a fresh battery built by [make] with capacity and
    current_load both equal to [c]. *)
Definition sim_full {B : Type} `{BatteryLike B}
  (make : Q -> Q -> B) (rows : list row) (c : Q) : option bool :=
  sim_battery_247 rows (make c c).

(** ** Vocabulary for the simulator and the sizers *)

(** The two battery models, and a fresh battery of a model with capacity
    and current_load both equal to [c], as the sizers build it. *)
Inductive model : Type :=
| Lossless   (* class Battery *)
| Lossy.     (* class Battery2, default coefficients *)

Definition sim_fresh (m : model) (rows : list row) (c : Q) : option bool :=
  match m with
  | Lossless => sim_battery_247 rows (Battery.Build c c)
  | Lossy => sim_battery_247 rows (Battery2.init c c)
  end.

Definition sizer (m : model) : nat -> list row -> Q -> option num :=
  match m with
  | Lossless => calculate_247_battery_capacity_b1_sim
  | Lossy => calculate_247_battery_capacity_b2_sim
  end.

Definition sizer_search (m : model)
  : nat -> list row -> Q -> Q -> option Q -> list Q
    -> option (Q * Q * option Q * list Q) :=
  match m with
  | Lossless => search_loop Battery.Build
  | Lossy => search_loop Battery2.init
  end.

(** One battery holds at most what the other holds, in a housing at most
    as large. *)
Definition Battery_le (b1 b2 : Battery.t) : Prop :=
  Battery.capacity b1 <= Battery.capacity b2 /\
  Battery.current_load b1 <= Battery.current_load b2.

Definition Battery2_le (b1 b2 : Battery2.t) : Prop :=
  exists c1 l1 c2 l2,
    b1 = Battery2.init c1 l1 /\ b2 = Battery2.init c2 l2 /\
    c1 <= c2 /\ l1 <= l2.

(** What holds of the variables of the search loop whenever its test is
    evaluated, for a simulator outcome [sim c] on a fresh battery of size
    [c], when the zero-capacity battery has failed. *)
Definition search_inv (sim : Q -> option bool) (max_bsize : Q)
  (l u : Q) (med : option Q) (tested : list Q) : Prop :=
  sim l = Some false /\
  (0 <= l /\ u <= max_bsize) /\
  Forall (fun c => 0 <= c <= max_bsize) tested /\
  ((u == max_bsize /\ Forall (fun c => sim c = Some false) tested) \/
   (~ u == max_bsize /\ sim u = Some true /\
    Exists (fun c => sim c = Some true) tested)) /\
  ((tested = [] /\ med = None) \/
   (exists earlier m,
       tested = earlier ++ [m] /\ med = Some m /\ (m = l \/ m = u) /\
       l < u)).

(** The capacity a fresh full battery of each model needs, rounding left
    aside: the lossless one must cover the maximum cumulative deficit; the
    lossy one, which loses energy on the way and may only release its load
    divided by [lower_lim_u + eff_d = 1.1] in one step, is served by 1.1
    times the sum of all deficits. *)
Definition sufficient_capacity (m : model) (rows : list row) : Q :=
  match m with
  | Lossless => max_cumulative_deficit rows
  | Lossy => (11 # 10) * sum_positive_deficits rows
  end.

(** ** Whole-number inputs

    The rational model and the program's binary64 arithmetic coincide
    where every intermediate value is an integer below [2^53]; on whole
    numbers of moderate size all the additions, subtractions and
    comparisons of the lossless battery and of the window accumulator are
    of that kind. *)

Definition whole (q : Q) : Prop :=
  exists z : Z, q == inject_Z z /\ (Z.abs z <= 2 ^ 30)%Z.

Definition whole_rows (rows : list row) : Prop :=
  Forall (fun r : row => whole (fst r) /\ whole (snd r)) rows.

(** ** The same code on binary64

    [F64] repeats the battery classes, [sim_battery_247] and the sizers
    with the kernel's binary64 numbers and their IEEE 754 operations
    (round to nearest, ties to even), which are those of a Python float;
    every decimal literal is the double the source's literal denotes, and
    [np.nan] is the float [nan].  It is used to evaluate the code at
    concrete inputs where rounding decides the outcome.  Division is the
    IEEE one: the divisors of the default coefficients are non-zero. *)

Set Warnings "-inexact-float".

Module F64.

Local Open Scope float_scope.

(** Python's [min(a, b)]. *)
Definition py_min (a b : float) : float := if b <? a then b else a.

Record Battery : Type := mkBattery {
  capacity : float;
  current_load : float
}.

Definition charge1 (b : Battery) (input_load : float) : Battery * float :=
  let load := current_load b + input_load in
  let load := if capacity b <? load then capacity b else load in
  (mkBattery (capacity b) load, load).

Definition discharge1 (b : Battery) (output_load : float)
  : Battery * float :=
  let load := current_load b - output_load in
  if load <? 0 then
    let lacking_amount := load in
    (mkBattery (capacity b) 0, output_load + lacking_amount)
  else (mkBattery (capacity b) load, output_load).

Record Battery2 : Type := mkBattery2 {
  capacity2 : float;
  current_load2 : float;
  eff_c : float;
  eff_d : float;
  upper_lim_u : float;
  upper_lim_v : float;
  lower_lim_u : float;
  lower_lim_v : float
}.

(** [Battery2(capacity, current_load)] with the constructor's defaults. *)
Definition init2 (capacity current_load : float) : Battery2 :=
  mkBattery2 capacity current_load 0.98 1.05 (-0.125) 1 0.05 0.

Definition set_load2 (b : Battery2) (l : float) : Battery2 :=
  mkBattery2 (capacity2 b) l (eff_c b) (eff_d b)
             (upper_lim_u b) (upper_lim_v b) (lower_lim_u b) (lower_lim_v b).

Definition set_capacity2 (b : Battery2) (c : float) : Battery2 :=
  mkBattery2 c (current_load2 b) (eff_c b) (eff_d b)
             (upper_lim_u b) (upper_lim_v b) (lower_lim_u b) (lower_lim_v b).

Definition calc_max_charge (b : Battery2) : float :=
  py_min (capacity2 b / eff_c b)
         ((upper_lim_v b * capacity2 b - current_load2 b)
          / (eff_c b - upper_lim_u b)).

Definition calc_max_discharge (b : Battery2) : float :=
  py_min (capacity2 b / eff_d b)
         ((current_load2 b - lower_lim_v b * capacity2 b)
          / (lower_lim_u b + eff_d b)).

Definition charge2 (b : Battery2) (input_load : float) : Battery2 * float :=
  let max_charge := calc_max_charge b in
  let load := current_load2 b + py_min max_charge input_load * eff_c b in
  (set_load2 b load, load).

Definition discharge2 (b : Battery2) (output_load : float)
  : Battery2 * float :=
  let max_discharge := calc_max_discharge b in
  let b' := set_load2 b
              (current_load2 b - py_min max_discharge output_load * eff_d b) in
  if max_discharge <? output_load then (b', max_discharge)
  else (b', output_load).

(** The [while True] loop of [Battery2.find_and_init_capacity]; [fuel]
    bounds the number of times the loop test is evaluated, and the second
    component counts the increments. *)
Fixpoint grow_capacity (fuel : nat) (b : Battery2)
  (new_capacity input_load : float) : option (Battery2 * nat) :=
  match fuel with
  | O => None
  | S fuel' =>
      let power_lim := (new_capacity - lower_lim_v b * capacity2 b)
                       / (lower_lim_u b + eff_d b) in
      if power_lim <? input_load then
        match grow_capacity fuel' (set_capacity2 b (capacity2 b + 0.1))
                (new_capacity + 0.1) input_load with
        | Some (b', n) => Some (b', S n)
        | None => None
        end
      else Some (b, O)
  end.

Definition find_and_init_capacity (fuel : nat) (b : Battery2)
  (input_load : float) : option (Battery2 * nat) :=
  let b1 := set_capacity2 b (capacity2 b + input_load * eff_d b) in
  let new_capacity := input_load * eff_d b in
  grow_capacity fuel b1 new_capacity input_load.

Class Ops (B : Type) : Type := {
  charge : B -> float -> B * float;
  discharge : B -> float -> B * float
}.

#[global] Instance Battery_ops : Ops Battery :=
  {| charge := charge1; discharge := discharge1 |}.

#[global] Instance Battery2_ops : Ops Battery2 :=
  {| charge := charge2; discharge := discharge2 |}.

Fixpoint sim_battery_247 {B : Type} `{Ops B}
  (rows : list (float * float)) (b : B) : bool :=
  match rows with
  | [] => true
  | (ren_mw, df_dc) :: rest =>
      let net_load := ren_mw - df_dc in
      if 0 <? net_load then
        sim_battery_247 rest (fst (charge b net_load))
      else
        let '(b', actual_discharge) := discharge b (- net_load) in
        if actual_discharge <? - net_load then false
        else sim_battery_247 rest b'
  end.

(** The [while u - l > 0.1] loop: the bounds and the last midpoint at
    loop exit. *)
Fixpoint search_loop {B : Type} `{Ops B} (make : float -> float -> B)
  (fuel : nat) (rows : list (float * float)) (l u : float)
  (med : option float) : option (float * float * option float) :=
  match fuel with
  | O => None
  | S fuel' =>
      if 0.1 <? u - l then
        let med := (u + l) / 2 in
        if sim_battery_247 rows (make med med)
        then search_loop make fuel' rows l med (Some med)
        else search_loop make fuel' rows med u (Some med)
      else Some (l, u, med)
  end.

Definition calculate_247_battery_capacity_sim {B : Type} `{Ops B}
  (make : float -> float -> B) (fuel : nat)
  (rows : list (float * float)) (max_bsize : float) : option float :=
  if sim_battery_247 rows (make 0 0) then Some 0
  else
    match search_loop make fuel rows 0 max_bsize None with
    | None => None
    | Some (_, u, med) =>
        if u =? max_bsize then Some nan else med
    end.

Definition calculate_247_battery_capacity_b2_sim :=
  calculate_247_battery_capacity_sim init2.

Definition calculate_247_battery_capacity_b1_sim :=
  calculate_247_battery_capacity_sim mkBattery.

End F64.

(** The rational a finite binary64 number denotes (0 for the others). *)
Definition F2Q (f : float) : Q :=
  match Prim2SF f with
  | S754_finite s m e =>
      (if s then - inject_Z (Zpos m) else inject_Z (Zpos m)) * 2 ^ e
  | _ => 0
  end.

Definition F2Q_row (r : float * float) : row := (F2Q (fst r), F2Q (snd r)).

(** * Properties *)

(** ** Comparisons *)

Lemma Qltb_lt (x y : Q) : Qltb x y = true <-> x < y.
Proof.
  unfold Qltb. rewrite negb_true_iff, <- not_true_iff_false, Qle_bool_iff.
  split; [apply Qnot_le_lt | apply Qlt_not_le].
Qed.

Lemma Qltb_ge (x y : Q) : Qltb x y = false <-> y <= x.
Proof.
  unfold Qltb. rewrite negb_false_iff. apply Qle_bool_iff.
Qed.

Lemma Qeq_bool_false (x y : Q) : Qeq_bool x y = false <-> ~ x == y.
Proof.
  rewrite <- not_true_iff_false, Qeq_bool_iff. tauto.
Qed.

(** Case analysis on a boolean comparison, leaving the order fact as a
    hypothesis for [lra]. *)
Ltac qcase x y :=
  let H := fresh "Hcmp" in
  destruct (Qltb x y) eqn:H;
  [ apply Qltb_lt in H | apply Qltb_ge in H ].

Ltac qcase_eq x y :=
  let H := fresh "Heq" in
  destruct (Qeq_bool x y) eqn:H;
  [ apply Qeq_bool_iff in H | apply Qeq_bool_false in H ].

Lemma py_min_glb (a b c : Q) : c <= a -> c <= b -> c <= py_min a b.
Proof. unfold py_min; qcase b a; auto. Qed.

Lemma py_min_le_l (a b : Q) : py_min a b <= a.
Proof. unfold py_min; qcase b a; lra. Qed.

Lemma py_min_le_r (a b : Q) : py_min a b <= b.
Proof. unfold py_min; qcase b a; lra. Qed.

Lemma py_div_nonzero (a b : Q) : ~ b == 0 -> py_div a b = Some (a / b).
Proof.
  intro H. unfold py_div. apply Qeq_bool_false in H. now rewrite H.
Qed.


Lemma py_min_spec (a b : Q) :
  (b < a /\ py_min a b = b) \/ (a <= b /\ py_min a b = a).
Proof. unfold py_min; qcase b a; auto. Qed.

(** Split every [py_min], innermost first, in the goal and the context. *)
Ltac min_case a b :=
  lazymatch a with context [py_min _ _] => fail | _ => idtac end;
  lazymatch b with context [py_min _ _] => fail | _ => idtac end;
  let m := fresh "m" in
  let E := fresh "E" in
  let E' := fresh "E" in
  let H := fresh "Hmin" in
  remember (py_min a b) as m eqn:E;
  destruct (py_min_spec a b) as [[H E'] | [H E']];
  rewrite E' in E; clear E'; subst m.

Ltac min_cases :=
  repeat match goal with
  | |- context [py_min ?a ?b] => min_case a b
  | H0 : context [py_min ?a ?b] |- _ => min_case a b
  end.

(** Turn a division by a closed constant into the product with its inverse,
    which is linear. *)
Ltac qdiv_norm :=
  repeat match goal with
  | |- context [?a / ?c] =>
      let c' := eval vm_compute in (/ c) in
      change (a / c) with (a * c')
  | H : context [?a / ?c] |- _ =>
      let c' := eval vm_compute in (/ c) in
      change (a / c) with (a * c') in H
  end.

(** ** The lossless battery stays within its bounds *)

(** C1.  For every lossless Battery with [0 <= current_load <= capacity]
    and every non-negative argument, the state after one call of [charge]
    and the state after one call of [discharge] both satisfy
    [0 <= current_load <= capacity]. *)
Theorem Battery_within_bounds_preserved (b : Battery.t) (x : Q) :
  Battery.within_bounds b ->
  0 <= x ->
  Battery.within_bounds (fst (Battery.charge b x)) /\
  Battery.within_bounds (fst (Battery.discharge b x)).
Proof.
  destruct b as [cap cur].
  unfold Battery.within_bounds, Battery.charge, Battery.discharge, Qgtb.
  cbn. intros [Hlo Hhi] Hx. split.
  - qcase cap (cur + x); cbn; lra.
  - qcase (cur - x) 0; cbn; lra.
Qed.

Lemma Battery_within_bounds_preserved_witness :
  Battery.within_bounds (fst (Battery.charge (Battery.Build 10 4) 7)) /\
  Battery.within_bounds (fst (Battery.discharge (Battery.Build 10 4) 7)).
Proof.
  apply (Battery_within_bounds_preserved (Battery.Build 10 4) 7).
  - unfold Battery.within_bounds; cbn; lra.
  - lra.
Defined.

(** ** The default-coefficient Battery2 *)

Lemma Battery2_default_charge (cap cur x : Q) :
  Battery2.charge (Battery2.init cap cur) x =
  let m := py_min (cap / (49 # 50)) ((1 * cap - cur) / ((49 # 50) - - (1 # 8))) in
  let cur' := cur + py_min m x * (49 # 50) in
  Some (Battery2.init cap cur', cur').
Proof. reflexivity. Qed.

Lemma Battery2_default_discharge (cap cur x : Q) :
  Battery2.discharge (Battery2.init cap cur) x =
  let m := py_min (cap / (21 # 20)) ((cur - 0 * cap) / ((1 # 20) + (21 # 20))) in
  let cur' := cur - py_min m x * (21 # 20) in
  Some (Battery2.init cap cur', if Qltb m x then m else x).
Proof.
  unfold Battery2.discharge, Battery2.calc_max_discharge. cbn.
  now destruct (Qltb _ x).
Qed.

(** C2.  A Battery2 with the default coefficients, [capacity >= 0] and
    [0 <= current_load <= capacity]: [charge x] and [discharge x] with
    [x >= 0] both return, and leave [0 <= current_load <= capacity] (and
    the capacity and the coefficients as they were), although neither
    clamps. *)
Theorem Battery2_default_within_bounds_preserved (cap cur x : Q) :
  0 <= cap ->
  Battery2.within_bounds (Battery2.init cap cur) ->
  0 <= x ->
  (exists cur' r,
      Battery2.charge (Battery2.init cap cur) x
      = Some (Battery2.init cap cur', r) /\
      Battery2.within_bounds (Battery2.init cap cur')) /\
  (exists cur' r,
      Battery2.discharge (Battery2.init cap cur) x
      = Some (Battery2.init cap cur', r) /\
      Battery2.within_bounds (Battery2.init cap cur')).
Proof.
  unfold Battery2.within_bounds. intros Hcap [Hlo Hhi] Hx.
  cbn in Hlo, Hhi. split.
  - rewrite Battery2_default_charge. cbv zeta.
    do 2 eexists. split; [reflexivity |]. cbn.
    qdiv_norm. min_cases; lra.
  - rewrite Battery2_default_discharge. cbv zeta.
    do 2 eexists. split; [reflexivity |]. cbn.
    qdiv_norm. min_cases; lra.
Qed.

Lemma Battery2_default_within_bounds_preserved_witness :
  (exists cur' r,
      Battery2.charge (Battery2.init 10 4) 7
      = Some (Battery2.init 10 cur', r) /\
      Battery2.within_bounds (Battery2.init 10 cur')) /\
  (exists cur' r,
      Battery2.discharge (Battery2.init 10 4) 7
      = Some (Battery2.init 10 cur', r) /\
      Battery2.within_bounds (Battery2.init 10 cur')).
Proof.
  apply (Battery2_default_within_bounds_preserved 10 4 7).
  - lra.
  - unfold Battery2.within_bounds; cbn; lra.
  - lra.
Defined.

(** C3.  For every Battery2 state and every [output_load]: when
    [calc_max_discharge] evaluates to [m] on the state before the call,
    [discharge output_load] sets [current_load] to
    [current_load - min(m, output_load) * eff_d], changes nothing else, and
    returns [m] if [m < output_load], else [output_load]; the returned
    value is [min(m, output_load)], before the efficiency factor, while
    the storage loses that value times [eff_d].  When [calc_max_discharge]
    raises, so does [discharge]. *)
Theorem Battery2_discharge_spec (b : Battery2.t) (output_load : Q) :
  match Battery2.calc_max_discharge b with
  | Some m =>
      exists b' r,
        Battery2.discharge b output_load = Some (b', r) /\
        b' = Battery2.set_current_load b
               (Battery2.current_load b
                - py_min m output_load * Battery2.eff_d b) /\
        r = (if Qltb m output_load then m else output_load) /\
        r == py_min m output_load /\
        Battery2.current_load b - Battery2.current_load b'
        == r * Battery2.eff_d b
  | None => Battery2.discharge b output_load = None
  end.
Proof.
  unfold Battery2.discharge.
  destruct (Battery2.calc_max_discharge b) as [m |]; cbn; [| reflexivity].
  unfold py_min.
  qcase m output_load; do 2 eexists;
    (split; [reflexivity |]); (split; [reflexivity |]);
    (split; [reflexivity |]); cbn.
  - qcase output_load m; [exfalso; lra |]. split; [reflexivity | ring].
  - qcase output_load m; split; try reflexivity; try ring.
    + lra.
    + assert (E : m == output_load) by lra. rewrite E. ring.
Qed.

(** ** [apply_battery] with a zero-capacity battery *)

(** A default Battery2 of capacity 0 holding nothing delivers nothing and
    keeps holding nothing. *)
Lemma Battery2_zero_discharge (cur gap : Q) :
  cur == 0 -> 0 < gap ->
  exists cur' r,
    Battery2.discharge (Battery2.init 0 cur) gap
    = Some (Battery2.init 0 cur', r) /\ r == 0 /\ cur' == 0.
Proof.
  intros Hcur Hgap. rewrite Battery2_default_discharge. cbv zeta.
  do 2 eexists. split; [reflexivity |].
  qdiv_norm. split.
  - match goal with |- context [Qltb ?m gap] => qcase m gap end;
      min_cases; lra.
  - min_cases; lra.
Qed.

Lemma Battery2_zero_charge (cur x : Q) :
  cur == 0 -> 0 <= x ->
  exists cur' r,
    Battery2.charge (Battery2.init 0 cur) x
    = Some (Battery2.init 0 cur', r) /\ cur' == 0.
Proof.
  intros Hcur Hx. rewrite Battery2_default_charge. cbv zeta.
  do 2 eexists. split; [reflexivity |].
  qdiv_norm. min_cases; lra.
Qed.

Lemma apply_loop_zero_capacity (rows : list row) :
  forall cur tot,
    cur == 0 ->
    exists t,
      apply_loop (Battery2.init 0 cur) tot rows = Some t /\
      t == tot + sum_positive_deficits rows.
Proof.
  induction rows as [| [ren_mw df_dc] rest IH]; intros cur tot Hcur.
  - exists tot. split; [reflexivity | cbn; lra].
  - cbn [apply_loop sum_positive_deficits]. unfold deficit, Qgtb. cbn [fst snd].
    qcase 0 (df_dc - ren_mw).
    + destruct (Battery2_zero_discharge cur (df_dc - ren_mw) Hcur Hcmp)
        as (cur' & r & -> & Hr & Hcur').
      cbn [bind].
      destruct (IH cur' (tot + (df_dc - ren_mw) - r) Hcur') as (t & -> & Ht).
      exists t. split; [reflexivity | lra].
    + destruct (Battery2_zero_charge cur (- (df_dc - ren_mw)) Hcur)
        as (cur' & r & -> & Hcur'); [lra |].
      cbn [bind].
      destruct (IH cur' tot Hcur') as (t & -> & Ht).
      exists t. split; [reflexivity | lra].
Qed.

(** C8.  [apply_battery] with [battery_capacity = 0] returns the sum over
    all steps of the positive deficits (facility draw minus renewable
    supply, where positive); at any step the zero-capacity lossy battery,
    which holds nothing, delivers nothing.  (Non-negativity of the series
    is not needed.) *)
Theorem apply_battery_zero_capacity (rows : list row) :
  (exists t, apply_battery 0 rows = Some t /\ t == sum_positive_deficits rows)
  /\
  (forall cur gap, cur == 0 -> 0 < gap ->
     exists cur' r,
       Battery2.discharge (Battery2.init 0 cur) gap
       = Some (Battery2.init 0 cur', r) /\ r == 0 /\ cur' == 0).
Proof.
  split.
  - destruct (apply_loop_zero_capacity rows 0 0) as (t & Ht & Hsum);
      [reflexivity |].
    exists t. split; [exact Ht | lra].
  - exact Battery2_zero_discharge.
Qed.

(** ** [Battery2.find_and_init_capacity] *)

Lemma Qnat_S (n : nat) : Qnat (S n) == Qnat n + 1.
Proof.
  unfold Qnat. rewrite Nat2Z.inj_succ, <- Z.add_1_r, inject_Z_plus.
  reflexivity.
Qed.

(** The test of the loop, for the default coefficients: the battery cannot
    yet discharge [x] in one step when fewer than [1.1 * x] are there. *)
Lemma grow_capacity_default_step (fuel : nat) (c cur nc x : Q) :
  Battery2.grow_capacity (S fuel) (Battery2.init c cur) nc x =
  if Qltb ((nc - 0 * c) / ((1 # 20) + (21 # 20))) x then
    '(b', n) <- Battery2.grow_capacity fuel
                  (Battery2.init (c + (1 # 10)) cur) (nc + (1 # 10)) x ;;
    Some (b', S n)
  else Some (Battery2.init c cur, O).
Proof. reflexivity. Qed.

(** Whenever the loop is left, after [n] increments, the capacity has
    grown by [0.1 * n] and the accumulator has reached [1.1 * x]. *)
Lemma grow_capacity_default_exit (fuel : nat) :
  forall c cur nc x b' n,
    Battery2.grow_capacity fuel (Battery2.init c cur) nc x = Some (b', n) ->
    exists c',
      b' = Battery2.init c' cur /\
      c' == c + (1 # 10) * Qnat n /\
      (11 # 10) * x <= nc + (1 # 10) * Qnat n.
Proof.
  induction fuel as [| fuel IH]; intros c cur nc x b' n Hrun;
    [discriminate |].
  rewrite grow_capacity_default_step in Hrun.
  match type of Hrun with context [Qltb ?p x] => qcase p x end.
  - destruct (Battery2.grow_capacity fuel _ _ x) as [[b1 n1] |] eqn:Hrec;
      [| discriminate].
    cbn [bind] in Hrun. injection Hrun as <- <-.
    destruct (IH _ _ _ _ _ _ Hrec) as (c' & Hb & Hc' & Hstop).
    exists c'. rewrite Qnat_S. repeat split; [exact Hb | lra | lra].
  - injection Hrun as <- <-. exists c. change (Qnat 0) with 0.
    repeat split; [lra |]. qdiv_norm. lra.
Qed.

(** On binary64 the increment of 0.1 is absorbed once the capacity is
    large: [3e15 * 1.05 + 0.1] is [3e15 * 1.05] again, so neither the
    capacity nor the accumulator moves and the loop test stays true. *)
Lemma F64_grow_capacity_stuck (fuel : nat) :
  F64.grow_capacity fuel (F64.init2 (0 + 3e15 * 1.05)%float 0%float)
    (3e15 * 1.05)%float 3e15%float = None.
Proof.
  induction fuel as [| fuel IH]; [reflexivity |].
  cbn [F64.grow_capacity].
  replace (F64.set_capacity2 (F64.init2 (0 + 3e15 * 1.05)%float 0%float)
             (F64.capacity2 (F64.init2 (0 + 3e15 * 1.05)%float 0%float)
              + 0.1)%float)
    with (F64.init2 (0 + 3e15 * 1.05)%float 0%float)
    by (vm_compute; reflexivity).
  replace (3e15 * 1.05 + 0.1)%float with (3e15 * 1.05)%float
    by (vm_compute; reflexivity).
  rewrite IH.
  match goal with
  | |- (if ?t then _ else _) = _ =>
      replace t with true by (vm_compute; reflexivity)
  end.
  reflexivity.
Qed.

(** C9.  [Battery2.find_and_init_capacity] does not return for every
    non-negative [input_load].  On a default [Battery2(0, 0)] and
    [input_load = 3e15] the capacity becomes [3e15 * 1.05]; adding 0.1 to
    it, and to the accumulator, gives the same double back, the rate check
    [power_lim < input_load] stays true, and the loop is never left,
    however many times its test may be evaluated.  Where the loop is left,
    the number of increments is that of the doubles, not that of the
    shortfall divided by 0.1: for [input_load = 4] the shortfall
    [1.1 * 4 - 1.05 * 4 = 0.2] is two increments in exact arithmetic, and
    the code makes three. *)
Theorem find_and_init_capacity_increment_absorbed :
  (forall fuel : nat,
     F64.find_and_init_capacity fuel (F64.init2 0 0) 3e15%float = None) /\
  (exists b,
     F64.find_and_init_capacity 10 (F64.init2 0 0) 4%float
     = Some (b, 3%nat)) /\
  (exists b,
     Battery2.grow_capacity 10 (Battery2.init (4 * (21 # 20)) 0)
       (4 * (21 # 20)) 4
     = Some (b, 2%nat)).
Proof.
  split; [| split].
  - intro fuel. unfold F64.find_and_init_capacity.
    change (F64.set_capacity2 (F64.init2 0 0)
              (F64.capacity2 (F64.init2 0 0)
               + 3e15 * F64.eff_d (F64.init2 0 0))%float)
      with (F64.init2 (0 + 3e15 * 1.05)%float 0%float).
    change (F64.eff_d (F64.init2 0 0)) with 1.05%float.
    apply F64_grow_capacity_stuck.
  - eexists. vm_compute. reflexivity.
  - eexists. vm_compute. reflexivity.
Qed.

(** ** The incremental capacity finder *)

Module FinderFacts.
Import Finder.

Ltac Zify.zify_post_hook ::= Z.to_euclidean_division_equations.

(** The loop from the start is the loop from any iteration it reaches. *)
Lemma at_start_loop (rows : list row) (i : nat) (s : state) :
  at_start rows i s -> loop 0 init rows = loop i s (skipn i rows).
Proof.
  induction 1 as [| i s r s' Hreach IH Hnth Hbody].
  - reflexivity.
  - rewrite IH.
    assert (Hskip : skipn i rows = r :: skipn (S i) rows).
    { clear - Hnth. revert i Hnth.
      induction rows as [| a rows IHrows]; intros [| i] Hnth;
        try discriminate.
      - now inversion Hnth.
      - cbn in Hnth. rewrite skipn_cons. now apply IHrows. }
    rewrite Hskip. cbn [loop]. now rewrite Hbody.
Qed.

Lemma firstn_skipn_snoc (rows : list row) (start k : nat) (r : row) :
  nth_error rows (start + k) = Some r ->
  firstn (S k) (skipn start rows) = firstn k (skipn start rows) ++ [r].
Proof.
  rewrite <- nth_error_skipn. generalize (skipn start rows) as l.
  induction k as [| k IH]; intros [| a l] Hnth; try discriminate.
  - now inversion Hnth.
  - cbn in Hnth. rewrite (firstn_cons (S k)), (firstn_cons k).
    rewrite (IH l Hnth). reflexivity.
Qed.

(** At the start of iteration [i] the accumulator holds the net load of
    the rows read since the last window boundary. *)
Lemma at_start_daily (rows : list row) (i : nat) (s : state) :
  at_start rows i s ->
  daily_net_load s
  = net_sum (firstn (i mod 72) (skipn (i - i mod 72) rows)).
Proof.
  induction 1 as [| i s [ren_mw df_dc] s' Hreach IH Hnth Hbody].
  - reflexivity.
  - unfold body in Hbody.
    destruct (Nat.eqb ((i + 1) mod 72) 0) eqn:Hwin.
    + apply Nat.eqb_eq in Hwin.
      destruct (Qltb _ 0); [discriminate |].
      injection Hbody as <-. cbn [daily_net_load].
      replace (S i mod 72)%nat with 0%nat by lia. reflexivity.
    + apply Nat.eqb_neq in Hwin.
      injection Hbody as <-. cbn [daily_net_load].
      replace (S i mod 72)%nat with (S (i mod 72)) by lia.
      replace (S i - S (i mod 72))%nat with (i - i mod 72)%nat by lia.
      rewrite (firstn_skipn_snoc rows _ _ (ren_mw, df_dc)).
      * rewrite IH. unfold net_sum. rewrite fold_left_app. reflexivity.
      * replace (i - i mod 72 + i mod 72)%nat with i by lia. exact Hnth.
Qed.

Lemma body_window (rows : list row) (i : nat) (s : state) (r : row) :
  at_start rows i s ->
  nth_error rows i = Some r ->
  daily_net_load s + (fst r - snd r) = net_sum (window_upto rows i).
Proof.
  intros Hreach Hnth. unfold window_upto.
  rewrite (firstn_skipn_snoc rows _ _ r).
  - unfold net_sum. rewrite fold_left_app.
    rewrite (at_start_daily rows i s Hreach). reflexivity.
  - replace (i - i mod 72 + i mod 72)%nat with i by lia. exact Hnth.
Qed.

(** The running maximum of a non-negative number and a capacity is a
    non-negative number. *)
Lemma update_cap_num (q : Q) (b : Battery.t) :
  0 <= q -> exists q', update_cap (Num q) b = Num q' /\ 0 <= q'.
Proof.
  intro Hq. unfold update_cap, py_max, num_gt, num_ne, Qgtb.
  qcase 0 (Battery.capacity b); cbn [andb].
  - qcase q (Battery.capacity b); eexists; split; try reflexivity; lra.
  - eauto.
Qed.

Lemma body_cases (i : nat) (s : state) (r : row) :
  (exists d b, body i s r = Break (Build NaN d b)) \/
  (exists d b,
      body i s r
      = Continue (Build (update_cap (battery_cap s) b) d b)).
Proof.
  destruct r as [ren_mw df_dc]. unfold body.
  destruct (Nat.eqb _ 0); [destruct (Qltb _ 0) |]; eauto.
Qed.

Lemma at_start_cap (rows : list row) (i : nat) (s : state) :
  at_start rows i s -> exists q, battery_cap s = Num q /\ 0 <= q.
Proof.
  induction 1 as [| i s r s' Hreach IH Hnth Hbody].
  - exists 0. split; [reflexivity | lra].
  - destruct IH as (q & Hcap & Hq).
    destruct (body_cases i s r) as [(d & b & E) | (d & b & E)];
      rewrite E in Hbody; [discriminate |].
    injection Hbody as <-. cbn [battery_cap]. rewrite Hcap.
    now apply update_cap_num.
Qed.

Lemma loop_result (rows : list row) :
  forall i s,
    (exists q, battery_cap s = Num q /\ 0 <= q) ->
    battery_cap (loop i s rows) = NaN \/
    exists q, battery_cap (loop i s rows) = Num q /\ 0 <= q.
Proof.
  induction rows as [| r rest IH]; intros i s Hs.
  - right. exact Hs.
  - cbn [loop].
    destruct (body_cases i s r) as [(d & b & E) | (d & b & E)]; rewrite E.
    + left. reflexivity.
    + apply IH. cbn [battery_cap].
      destruct Hs as (q & -> & Hq). now apply update_cap_num.
Qed.

End FinderFacts.

(** C7.  In [calculate_247_battery_capacity], at every index [i] the loop
    reaches with [(i + 1) % 72 == 0]: the accumulator, once row [i] is
    added, is the net load summed over the window since the last boundary;
    if it is negative, the body sets the result to NaN and breaks, so that
    no later row is read and the function returns NaN; otherwise the body
    resets the accumulator to zero and the loop goes on to [i + 1]. *)
Theorem window_check_every_72_steps
  (rows : list row) (i : nat) (s : Finder.state) (r : row) :
  Finder.at_start rows i s ->
  nth_error rows i = Some r ->
  ((i + 1) mod 72 = 0)%nat ->
  let w := net_sum (window_upto rows i) in
  Finder.daily_net_load s + (fst r - snd r) = w /\
  (w < 0 ->
     (exists s', Finder.body i s r = Finder.Break s' /\
                 Finder.battery_cap s' = NaN) /\
     (forall rest,
         Finder.battery_cap (Finder.loop i s (r :: rest)) = NaN) /\
     Finder.calculate_247_battery_capacity rows = NaN) /\
  (0 <= w ->
     exists s', Finder.body i s r = Finder.Continue s' /\
                Finder.daily_net_load s' = 0 /\
                Finder.at_start rows (S i) s').
Proof.
  intros Hreach Hnth Hwin w.
  pose proof (FinderFacts.body_window rows i s r Hreach Hnth) as Hw.
  fold w in Hw. split; [exact Hw |].
  assert (Hbody : Finder.body i s r =
                  if Qltb w 0
                  then Finder.Break
                         (Finder.Build NaN w
                            (Finder.update_battery (Finder.b s) (fst r) (snd r)))
                  else Finder.Continue
                         (Finder.Build
                            (Finder.update_cap (Finder.battery_cap s)
                               (Finder.update_battery (Finder.b s)
                                  (fst r) (snd r)))
                            0
                            (Finder.update_battery (Finder.b s)
                               (fst r) (snd r)))).
  { destruct r as [ren_mw df_dc]. unfold Finder.body.
    rewrite Hwin. cbn [Nat.eqb fst snd] in *. rewrite Hw. reflexivity. }
  split.
  - intro Hneg. apply Qltb_lt in Hneg. rewrite Hneg in Hbody.
    assert (Hloop : forall rest,
               Finder.battery_cap (Finder.loop i s (r :: rest)) = NaN).
    { intro rest. cbn [Finder.loop]. rewrite Hbody. reflexivity. }
    split; [eauto |]. split; [exact Hloop |].
    unfold Finder.calculate_247_battery_capacity.
    rewrite (FinderFacts.at_start_loop rows i s Hreach).
    assert (Hskip : exists rest, skipn i rows = r :: rest).
    { clear - Hnth. revert i Hnth.
      induction rows as [| a rows IHrows]; intros [| i] Hnth;
        try discriminate.
      - inversion Hnth. cbn. eauto.
      - cbn in Hnth. rewrite skipn_cons. now apply IHrows. }
    destruct Hskip as (rest & ->). apply Hloop.
  - intro Hpos. apply Qltb_ge in Hpos. rewrite Hpos in Hbody.
    eexists. split; [exact Hbody |]. split; [reflexivity |].
    eapply Finder.at_start_next; eassumption.
Qed.

(** C10.  In [calculate_247_battery_capacity], at the start of every loop
    iteration the running maximum [battery_cap] is a non-negative number,
    never NaN; the body stores NaN only when it breaks; and the function
    returns NaN or a non-negative number. *)
Theorem battery_cap_not_nan_inside_loop (rows : list row) :
  (forall i s,
      Finder.at_start rows i s ->
      exists q, Finder.battery_cap s = Num q /\ 0 <= q) /\
  (forall i s r s',
      Finder.battery_cap s <> NaN ->
      (Finder.body i s r = Finder.Continue s' ->
       Finder.battery_cap s' <> NaN) /\
      (Finder.body i s r = Finder.Break s' ->
       Finder.battery_cap s' = NaN)) /\
  (Finder.calculate_247_battery_capacity rows = NaN \/
   exists q, Finder.calculate_247_battery_capacity rows = Num q /\ 0 <= q).
Proof.
  split; [exact (FinderFacts.at_start_cap rows) |]. split.
  - intros i s r s' Hs.
    destruct (FinderFacts.body_cases i s r) as [(d & b & E) | (d & b & E)];
      rewrite E; split; intro Hb; try discriminate;
      injection Hb as <-; cbn [Finder.battery_cap]; try reflexivity.
    destruct (Finder.battery_cap s) as [q |]; [| congruence].
    unfold Finder.update_cap, py_max, num_gt, num_ne.
    destruct (Qgtb _ 0 && true); [destruct (Qgtb _ q) |]; discriminate.
  - apply FinderFacts.loop_result. exists 0. split; [reflexivity | lra].
Qed.

Lemma state_at_sound (rows : list row) (n : nat) :
  forall s, Finder.state_at rows n = Some s -> Finder.at_start rows n s.
Proof.
  induction n as [| i IH]; intros s Hs; cbn [Finder.state_at] in Hs.
  - injection Hs as <-. constructor.
  - destruct (Finder.state_at rows i) as [s0 |]; [| discriminate].
    cbn [bind] in Hs.
    destruct (nth_error rows i) as [r |] eqn:Hnth; [| discriminate].
    cbn [bind] in Hs.
    destruct (Finder.body i s0 r) as [s' | s'] eqn:Hbody; [| discriminate].
    injection Hs as <-.
    eapply Finder.at_start_next; eauto.
Qed.

(** Seventy-two hours without any renewable supply: the check at index 71
    finds a negative window and the function returns NaN. *)
Lemma window_check_every_72_steps_witness :
  Finder.calculate_247_battery_capacity (repeat (0, 1) 72) = NaN.
Proof.
  assert (Hs : exists s, Finder.state_at (repeat (0, 1) 72) 71 = Some s)
    by (vm_compute; eexists; reflexivity).
  destruct Hs as [s Hs].
  destruct (window_check_every_72_steps (repeat (0, 1) 72) 71 s (0, 1)
              (state_at_sound _ _ _ Hs) eq_refl eq_refl)
    as (_ & Hneg & _).
  apply Hneg. vm_compute. reflexivity.
Defined.

(** ** The simulator is monotone in the battery *)

Section SimMonotone.

Context {B : Type} `{BatteryLike B}.

(** [below b1 b2]: [b1] is the smaller battery.  Both operations return
    on related batteries; a charge keeps them related, and so does a
    discharge that the smaller battery meets in full, which the larger
    one then meets too. *)
Variable below : B -> B -> Prop.

Hypothesis charge_below : forall b1 b2 x,
  below b1 b2 -> 0 < x ->
  exists b1' r1 b2' r2,
    charge b1 x = Some (b1', r1) /\ charge b2 x = Some (b2', r2) /\
    below b1' b2'.

Hypothesis discharge_below : forall b1 b2 x,
  below b1 b2 -> 0 <= x ->
  exists b1' r1 b2' r2,
    discharge b1 x = Some (b1', r1) /\ discharge b2 x = Some (b2', r2) /\
    (x <= r1 -> x <= r2 /\ below b1' b2').

(** A battery related with itself never makes the simulator raise. *)
Lemma sim_battery_247_total (rows : list row) :
  forall b, below b b -> exists o, sim_battery_247 rows b = Some o.
Proof.
  induction rows as [| [ren_mw df_dc] rest IH]; intros b Hb.
  - exists true. reflexivity.
  - cbn [sim_battery_247]. unfold Qgtb.
    qcase 0 (ren_mw - df_dc).
    + destruct (charge_below b b _ Hb Hcmp)
        as (b1' & r1 & b2' & r2 & E1 & E2 & Hb').
      rewrite E1 in E2. injection E2 as <- <-.
      rewrite E1. cbn [bind]. now apply IH.
    + destruct (discharge_below b b (- (ren_mw - df_dc)) Hb)
        as (b1' & r1 & b2' & r2 & E1 & E2 & Hmet); [lra |].
      rewrite E1 in E2. injection E2 as <- <-.
      rewrite E1. cbn [bind].
      qcase r1 (- (ren_mw - df_dc)); [eauto |].
      apply IH. now apply Hmet.
Qed.

(** What the smaller battery passes, the larger passes. *)
Lemma sim_battery_247_mono (rows : list row) :
  forall b1 b2,
    below b1 b2 ->
    sim_battery_247 rows b1 = Some true ->
    sim_battery_247 rows b2 = Some true.
Proof.
  induction rows as [| [ren_mw df_dc] rest IH]; intros b1 b2 Hb.
  - reflexivity.
  - cbn [sim_battery_247]. unfold Qgtb.
    qcase 0 (ren_mw - df_dc).
    + destruct (charge_below b1 b2 _ Hb Hcmp)
        as (b1' & r1 & b2' & r2 & -> & -> & Hb').
      cbn [bind]. now apply IH.
    + destruct (discharge_below b1 b2 (- (ren_mw - df_dc)) Hb)
        as (b1' & r1 & b2' & r2 & -> & -> & Hmet); [lra |].
      cbn [bind].
      qcase r1 (- (ren_mw - df_dc)); [discriminate |].
      destruct (Hmet Hcmp0) as [Hr2 Hb'].
      apply Qltb_ge in Hr2. rewrite Hr2. now apply IH.
Qed.

End SimMonotone.

Lemma Battery_charge_below (b1 b2 : Battery.t) (x : Q) :
  Battery_le b1 b2 -> 0 < x ->
  exists b1' r1 b2' r2,
    charge b1 x = Some (b1', r1) /\ charge b2 x = Some (b2', r2) /\
    Battery_le b1' b2'.
Proof.
  destruct b1 as [c1 l1], b2 as [c2 l2].
  unfold Battery_le. cbn. intros [Hc Hl] Hx.
  do 4 eexists. split; [reflexivity |]. split; [reflexivity |].
  unfold Battery.charge, Qgtb. cbn.
  qcase c1 (l1 + x); qcase c2 (l2 + x); cbn; lra.
Qed.

Lemma Battery_discharge_below (b1 b2 : Battery.t) (x : Q) :
  Battery_le b1 b2 -> 0 <= x ->
  exists b1' r1 b2' r2,
    discharge b1 x = Some (b1', r1) /\ discharge b2 x = Some (b2', r2) /\
    (x <= r1 -> x <= r2 /\ Battery_le b1' b2').
Proof.
  destruct b1 as [c1 l1], b2 as [c2 l2].
  unfold Battery_le. cbn. intros [Hc Hl] Hx.
  unfold Battery.discharge. cbn.
  qcase (l1 - x) 0; qcase (l2 - x) 0;
    (do 4 eexists; split; [reflexivity |]; split; [reflexivity |]);
    cbn; intro Hmet; lra.
Qed.

Lemma Battery2_charge_below (b1 b2 : Battery2.t) (x : Q) :
  Battery2_le b1 b2 -> 0 < x ->
  exists b1' r1 b2' r2,
    charge b1 x = Some (b1', r1) /\ charge b2 x = Some (b2', r2) /\
    Battery2_le b1' b2'.
Proof.
  intros (c1 & l1 & c2 & l2 & -> & -> & Hc & Hl) Hx.
  cbn [charge Battery2_like]. rewrite !Battery2_default_charge. cbv zeta.
  do 4 eexists. split; [reflexivity |]. split; [reflexivity |].
  do 4 eexists. split; [reflexivity |]. split; [reflexivity |].
  split; [exact Hc |].
  qdiv_norm. min_cases; lra.
Qed.

Lemma Battery2_discharge_below (b1 b2 : Battery2.t) (x : Q) :
  Battery2_le b1 b2 -> 0 <= x ->
  exists b1' r1 b2' r2,
    discharge b1 x = Some (b1', r1) /\ discharge b2 x = Some (b2', r2) /\
    (x <= r1 -> x <= r2 /\ Battery2_le b1' b2').
Proof.
  intros (c1 & l1 & c2 & l2 & -> & -> & Hc & Hl) Hx.
  cbn [discharge Battery2_like]. rewrite !Battery2_default_discharge.
  cbv zeta.
  do 4 eexists. split; [reflexivity |]. split; [reflexivity |].
  qdiv_norm.
  repeat match goal with
         | |- context [Qltb ?m x] => qcase m x
         end; intro Hmet;
    (split; [| do 4 eexists; split; [reflexivity |]; split; [reflexivity |];
               split; [exact Hc |]]);
    min_cases; lra.
Qed.

Lemma sim_fresh_total (m : model) (rows : list row) (c : Q) :
  exists o, sim_fresh m rows c = Some o.
Proof.
  destruct m; cbn [sim_fresh].
  - apply (sim_battery_247_total Battery_le
             Battery_charge_below Battery_discharge_below).
    unfold Battery_le. cbn. lra.
  - apply (sim_battery_247_total Battery2_le
             Battery2_charge_below Battery2_discharge_below).
    exists c, c, c, c. repeat split; lra.
Qed.

(** Feasibility is monotone in the size of the fresh battery. *)
Lemma sim_fresh_mono (m : model) (rows : list row) (c c' : Q) :
  c <= c' ->
  sim_fresh m rows c = Some true -> sim_fresh m rows c' = Some true.
Proof.
  intro Hc. destruct m; cbn [sim_fresh].
  - apply (sim_battery_247_mono Battery_le
             Battery_charge_below Battery_discharge_below).
    unfold Battery_le. cbn. lra.
  - apply (sim_battery_247_mono Battery2_le
             Battery2_charge_below Battery2_discharge_below).
    exists c, c, c', c'. repeat split; lra.
Qed.

Lemma sim_fresh_antimono (m : model) (rows : list row) (c c' : Q) :
  c <= c' ->
  sim_fresh m rows c' = Some false -> sim_fresh m rows c = Some false.
Proof.
  intros Hc Hfail.
  destruct (sim_fresh_total m rows c) as [[|] E]; [| exact E].
  apply (sim_fresh_mono m rows c c' Hc) in E. congruence.
Qed.

(** ** The binary search *)

Section SearchFacts.

Context {B : Type} `{BatteryLike B}.
Variable make : Q -> Q -> B.
Variable rows : list row.
Variable max_bsize : Q.

Hypothesis sim_total : forall c, exists o, sim_full make rows c = Some o.

Lemma midpoint_between (l u : Q) :
  1 # 10 < u - l -> l < (u + l) / 2 /\ (u + l) / 2 < u.
Proof. intro Hw. qdiv_norm. lra. Qed.

Lemma search_inv_feasible (l u : Q) (med : option Q) (tested : list Q) :
  let m := (u + l) / 2 in
  1 # 10 < u - l ->
  sim_full make rows m = Some true ->
  search_inv (sim_full make rows) max_bsize l u med tested ->
  search_inv (sim_full make rows) max_bsize l m (Some m) (tested ++ [m]).
Proof.
  intros m Hw Hm (I1 & (I2a & I2b) & I3 & I4 & I5).
  destruct (midpoint_between l u Hw) as [Hlm Hmu]. fold m in Hlm, Hmu.
  repeat split.
  - exact I1.
  - exact I2a.
  - lra.
  - apply Forall_app. split; [exact I3 |]. repeat constructor; lra.
  - right. split; [lra |]. split; [exact Hm |].
    apply Exists_app. right. now constructor.
  - right. exists tested, m. repeat split; auto.
Qed.

Lemma search_inv_infeasible (l u : Q) (med : option Q) (tested : list Q) :
  let m := (u + l) / 2 in
  1 # 10 < u - l ->
  sim_full make rows m = Some false ->
  search_inv (sim_full make rows) max_bsize l u med tested ->
  search_inv (sim_full make rows) max_bsize m u (Some m) (tested ++ [m]).
Proof.
  intros m Hw Hm (I1 & (I2a & I2b) & I3 & I4 & I5).
  destruct (midpoint_between l u Hw) as [Hlm Hmu]. fold m in Hlm, Hmu.
  repeat split.
  - exact Hm.
  - lra.
  - exact I2b.
  - apply Forall_app. split; [exact I3 |]. repeat constructor; lra.
  - destruct I4 as [[Hu Hall] | (Hu & Hfeas & Hex)].
    + left. split; [exact Hu |].
      apply Forall_app. split; [exact Hall |]. now repeat constructor.
    + right. split; [exact Hu |]. split; [exact Hfeas |].
      apply Exists_app. now left.
  - right. exists tested, m. repeat split; auto.
Qed.

(** The invariant holds when the loop is left, and the interval is then
    at most 0.1 wide. *)
Lemma search_loop_inv (fuel : nat) :
  forall l u med tested l' u' med' tested',
    search_loop make fuel rows l u med tested
    = Some (l', u', med', tested') ->
    search_inv (sim_full make rows) max_bsize l u med tested ->
    search_inv (sim_full make rows) max_bsize l' u' med' tested' /\
    u' - l' <= 1 # 10.
Proof.
  induction fuel as [| fuel IH];
    intros l u med tested l' u' med' tested' Hrun Hinv;
    cbn [search_loop] in Hrun; [discriminate |].
  unfold Qgtb in Hrun. qcase (1 # 10) (u - l).
  - destruct (sim_total ((u + l) / 2)) as [o E]. unfold sim_full in E.
    rewrite E in Hrun. cbn [bind] in Hrun. destruct o.
    + apply IH in Hrun; [exact Hrun |].
      exact (search_inv_feasible l u med tested Hcmp E Hinv).
    + apply IH in Hrun; [exact Hrun |].
      exact (search_inv_infeasible l u med tested Hcmp E Hinv).
  - injection Hrun as <- <- <- <-. split; [exact Hinv | exact Hcmp].
Qed.

End SearchFacts.

Lemma search_fuel_enough (max_bsize : Q) :
  max_bsize - 0
  <= (1 # 10) * inject_Z (2 ^ Z.of_nat (pred (search_fuel max_bsize))).
Proof.
  unfold search_fuel. cbn [pred].
  rewrite Z2Nat.id by apply Z.log2_up_nonneg.
  assert (Hc : (Qceiling (10 * max_bsize)
                <= 2 ^ Z.log2_up (Qceiling (10 * max_bsize)))%Z).
  { destruct (Z_lt_le_dec 0 (Qceiling (10 * max_bsize))) as [Hpos | Hneg].
    - now apply Z.log2_log2_up_spec.
    - rewrite Z.log2_up_nonpos by exact Hneg. cbn. lia. }
  rewrite Zle_Qle in Hc.
  pose proof (Qle_ceiling (10 * max_bsize)). lra.
Qed.

(** ** The sizers *)

Lemma sizer_unfold (m : model) (fuel : nat) (rows : list row) (max_bsize : Q) :
  sizer m fuel rows max_bsize =
  (ok0 <- sim_fresh m rows 0 ;;
   if ok0 : bool then Some (Num 0)
   else
     '(_, u, med, _) <- sizer_search m fuel rows 0 max_bsize None [] ;;
     if Qeq_bool u max_bsize then Some NaN
     else
       last <- med ;;
       Some (Num last)).
Proof. destruct m; reflexivity. Qed.

Lemma sizer_search_inv (m : model) (fuel : nat) (rows : list row)
  (max_bsize : Q) (l u : Q) (med : option Q) (tested : list Q) :
  sizer_search m fuel rows 0 max_bsize None [] = Some (l, u, med, tested) ->
  sim_fresh m rows 0 = Some false ->
  search_inv (sim_fresh m rows) max_bsize l u med tested /\ u - l <= 1 # 10.
Proof.
  intros Hrun H0.
  assert (Hinit : search_inv (sim_fresh m rows) max_bsize 0 max_bsize None []).
  { repeat split; auto; try lra.
    - left. split; [reflexivity | constructor]. }
  destruct m; cbn [sizer_search] in Hrun.
  - exact (search_loop_inv Battery.Build rows max_bsize
             (sim_fresh_total Lossless rows) fuel _ _ _ _ _ _ _ _ Hrun Hinit).
  - exact (search_loop_inv Battery2.init rows max_bsize
             (sim_fresh_total Lossy rows) fuel _ _ _ _ _ _ _ _ Hrun Hinit).
Qed.



(** C4.  The sizers return the last midpoint computed even when the
    simulator has just rejected it.  With one hour of draw 1 and no
    supply, and [max_bsize = 2], the search ends with the bounds
    [l = 0.9375 < u = 1] (lossless) and [l = 1.0625 < u = 1.125] (lossy);
    the sizer returns [l], on which the simulator returns False, where
    the smallest size found to meet the demand is [u].  All the values
    are dyadic: the binary64 run gives the same numbers. *)
Theorem sizer_returns_rejected_midpoint :
  (exists r,
      sizer Lossless 6 [(0, 1)] 2 = Some (Num r) /\ r == 15 # 16 /\
      sim_fresh Lossless [(0, 1)] r = Some false /\
      sim_fresh Lossless [(0, 1)] 1 = Some true) /\
  (exists r,
      sizer Lossy 6 [(0, 1)] 2 = Some (Num r) /\ r == 17 # 16 /\
      sim_fresh Lossy [(0, 1)] r = Some false /\
      sim_fresh Lossy [(0, 1)] (9 # 8) = Some true) /\
  (F64.calculate_247_battery_capacity_b1_sim 6 [(0, 1)%float] 2
   = Some 0.9375%float /\
   F64.sim_battery_247 [(0, 1)%float] (F64.mkBattery 0.9375 0.9375) = false)
  /\
  (F64.calculate_247_battery_capacity_b2_sim 6 [(0, 1)%float] 2
   = Some 1.0625%float /\
   F64.sim_battery_247 [(0, 1)%float] (F64.init2 1.0625 1.0625) = false).
Proof.
  split; [| split; [| split]].
  - eexists. split; [vm_compute; reflexivity |].
    repeat split; vm_compute; reflexivity.
  - eexists. split; [vm_compute; reflexivity |].
    repeat split; vm_compute; reflexivity.
  - split; vm_compute; reflexivity.
  - split; vm_compute; reflexivity.
Qed.

(** ** A battery that is large enough passes the simulator *)

Lemma max_cumulative_deficit_from_ge (rows : list row) (d : Q) :
  d <= max_cumulative_deficit_from d rows.
Proof.
  destruct rows as [| r rest]; cbn [max_cumulative_deficit_from].
  - lra.
  - match goal with |- context [Qltb ?a ?b] => qcase a b end; lra.
Qed.

Lemma max_cumulative_deficit_from_tail (r : row) (rest : list row) (d : Q) :
  max_cumulative_deficit_from (cumulative_deficit_step d r) rest
  <= max_cumulative_deficit_from d (r :: rest).
Proof.
  cbn [max_cumulative_deficit_from].
  match goal with |- context [Qltb ?a ?b] => qcase a b end; lra.
Qed.

(** A lossless battery that lacks [d] to be full, [d] being the cumulative
    deficit so far, passes when its capacity covers the maximum the
    cumulative deficit will reach. *)
Lemma sim_battery_247_lossless_enough (rows : list row) :
  forall d cap cur,
    0 <= d ->
    cur == cap - d ->
    max_cumulative_deficit_from d rows <= cap ->
    sim_battery_247 rows (Battery.Build cap cur) = Some true.
Proof.
  induction rows as [| [ren_mw df_dc] rest IH]; intros d cap cur Hd Hcur Hmax.
  - reflexivity.
  - pose proof (max_cumulative_deficit_from_tail (ren_mw, df_dc) rest d)
      as Htail.
    pose proof (max_cumulative_deficit_from_ge rest
                  (cumulative_deficit_step d (ren_mw, df_dc))) as Hge.
    unfold cumulative_deficit_step, deficit in *. cbn [fst snd] in *.
    cbn [sim_battery_247 charge discharge Battery_like bind].
    unfold Battery.charge, Battery.discharge, Qgtb.
    cbn [Battery.set_current_load Battery.capacity Battery.current_load].
    qcase 0 (ren_mw - df_dc).
    + qcase cap (cur + (ren_mw - df_dc));
        (eapply IH; [| | eapply Qle_trans; [exact Htail | exact Hmax]]);
        qcase (d + (df_dc - ren_mw)) 0; cbn; lra.
    + qcase (d + (df_dc - ren_mw)) 0; [exfalso; lra |].
      qcase (cur - - (ren_mw - df_dc)) 0; [exfalso; lra |].
      qcase (- (ren_mw - df_dc)) (- (ren_mw - df_dc)); [exfalso; lra |].
      eapply IH; [| | eapply Qle_trans; [exact Htail | exact Hmax]];
        cbn; lra.
Qed.

Lemma sum_positive_deficits_nonneg (rows : list row) :
  0 <= sum_positive_deficits rows.
Proof.
  induction rows as [| r rest IH]; cbn [sum_positive_deficits]; [lra |].
  unfold Qgtb. qcase 0 (deficit r); lra.
Qed.

(** A default Battery2 within its bounds passes when its load is 1.1 times
    the sum of the deficits still to come. *)
Lemma sim_battery_247_lossy_enough (rows : list row) :
  forall cap cur,
    0 <= cur <= cap ->
    (11 # 10) * sum_positive_deficits rows <= cur ->
    sim_battery_247 rows (Battery2.init cap cur) = Some true.
Proof.
  induction rows as [| [ren_mw df_dc] rest IH]; intros cap cur Hcur Hsum.
  - reflexivity.
  - pose proof (sum_positive_deficits_nonneg rest) as Hrest.
    cbn [sum_positive_deficits] in Hsum. unfold deficit, Qgtb in Hsum.
    cbn [fst snd] in Hsum.
    cbn [sim_battery_247 charge discharge Battery2_like]. unfold Qgtb.
    qcase 0 (ren_mw - df_dc).
    + rewrite Battery2_default_charge. cbv zeta. cbn [bind].
      qcase 0 (df_dc - ren_mw); [exfalso; lra |].
      apply IH; qdiv_norm; min_cases; lra.
    + rewrite Battery2_default_discharge. cbv zeta. cbn [bind].
      qdiv_norm.
      match goal with
      | |- context [if Qltb ?m ?x then ?m else ?x] => qcase m x
      end.
      * exfalso. qcase 0 (df_dc - ren_mw); min_cases; lra.
      * qcase (- (ren_mw - df_dc)) (- (ren_mw - df_dc)); [exfalso; lra |].
        apply IH; qcase 0 (df_dc - ren_mw); min_cases; lra.
Qed.

(** C6, as the code has it.  A fresh full battery (capacity and
    current_load both [c]) passes [sim_battery_247] when [c] exceeds by
    more than one percent the capacity its model needs: the maximum
    cumulative deficit of the series for the lossless Battery, 1.1 times
    the sum of all deficits for the default Battery2.  (Non-negativity of
    the series is not needed.) *)
Theorem sim_battery_247_sufficient_capacity
  (m : model) (rows : list row) (c : Q) :
  (101 # 100) * sufficient_capacity m rows < c ->
  sim_fresh m rows c = Some true.
Proof.
  destruct m; cbn [sufficient_capacity sim_fresh]; intro Hc.
  - pose proof (max_cumulative_deficit_from_ge rows 0) as Hge.
    fold (max_cumulative_deficit rows) in Hge.
    apply (sim_battery_247_lossless_enough rows 0 c c); [lra | ring |].
    fold (max_cumulative_deficit rows). lra.
  - pose proof (sum_positive_deficits_nonneg rows).
    apply sim_battery_247_lossy_enough; lra.
Qed.

Lemma sim_battery_247_sufficient_capacity_witness :
  sim_fresh Lossless [(10, 0); (0, 5); (3, 5)] 8 = Some true.
Proof.
  apply (sim_battery_247_sufficient_capacity Lossless
           [(10, 0); (0, 5); (3, 5)] 8).
  vm_compute. reflexivity.
Defined.

(** C6 as stated fails.  One hour of draw 1 without supply has maximum
    cumulative deficit 1; an empty lossless battery of capacity 100 fails
    the simulator, and so does a full default Battery2 of capacity 1.06,
    which can release 1.06 / 1.1 in one step.  On binary64 a capacity
    that exceeds the need by less than the rounding does not do either:
    the full lossless battery of capacity 1.3 fails on the draws 0.1,
    0.3, 0.9, whose doubles add up to less than the double 1.3; and the
    full default Battery2 of capacity 33 = 1.1 * 30 fails on the draw
    30, because 33 / 1.1 rounds below 30. *)
Lemma sim_battery_247_large_capacity_counterexample :
  (max_cumulative_deficit [(0, 1)] < Battery.capacity (Battery.Build 100 0) /\
   sim_battery_247 [(0, 1)] (Battery.Build 100 0) = Some false) /\
  (max_cumulative_deficit [(0, 1)]
   < Battery2.capacity (Battery2.init (53 # 50) (53 # 50)) /\
   sim_battery_247 [(0, 1)] (Battery2.init (53 # 50) (53 # 50)) = Some false)
  /\
  (max_cumulative_deficit
     (map F2Q_row [(0, 0.1); (0, 0.3); (0, 0.9)]%float) < F2Q 1.3 /\
   F64.sim_battery_247 [(0, 0.1); (0, 0.3); (0, 0.9)]%float
     (F64.mkBattery 1.3 1.3) = false) /\
  ((11 # 10) * sum_positive_deficits (map F2Q_row [(0, 30)%float])
   <= F2Q 33 /\
   F64.sim_battery_247 [(0, 30)%float] (F64.init2 33 33) = false).
Proof.
  repeat split; vm_compute; solve [reflexivity | discriminate].
Qed.

(** ** Worked examples of the specification *)

(** Supply [10, 0, 10] against a draw of [5, 5, 5]: the smallest lossless
    capacity is 5; searching up to 8 the sizer returns 4.9375. *)
Example sizer_lossless_surplus_deficit_surplus :
  exists r,
    sizer Lossless 8 [(10, 5); (0, 5); (10, 5)] 8 = Some (Num r) /\
    r == 79 # 16.
Proof. eexists. split; vm_compute; reflexivity. Qed.

(** No supply against a draw of [1, 1, 1], searching up to 0.5: nothing
    within the bound is feasible. *)
Example sizer_bound_too_small :
  sizer Lossless 4 [(0, 1); (0, 1); (0, 1)] (1 # 2) = Some NaN /\
  sizer Lossy 4 [(0, 1); (0, 1); (0, 1)] (1 # 2) = Some NaN.
Proof. split; vm_compute; reflexivity. Qed.

(** The incremental finder on a short series: the capacity grows to cover
    the deficits 5 and 3 that follow the first surplus. *)
Example finder_short_series :
  Finder.calculate_247_battery_capacity [(10, 5); (0, 5); (2, 5)] = Num 8.
Proof. vm_compute. reflexivity. Qed.

(** * Further properties of the code *)

(** ** The lossless battery *)

(** X1.  [Battery.discharge] conserves energy and never over-delivers: the
    value returned plus the load left equals the load before; the value
    returned is at most the amount requested, and it is the amount
    requested exactly when the load before covers it; the capacity is
    untouched. *)
Theorem Battery_discharge_conserves (b : Battery.t) (output_load : Q) :
  let b' := fst (Battery.discharge b output_load) in
  let r := snd (Battery.discharge b output_load) in
  r + Battery.current_load b' == Battery.current_load b /\
  r <= output_load /\
  (r == output_load <-> output_load <= Battery.current_load b) /\
  Battery.capacity b' = Battery.capacity b.
Proof.
  destruct b as [cap cur]. unfold Battery.discharge. cbn.
  qcase (cur - output_load) 0; cbn.
  - split; [ring |]. split; [lra |]. split; [split; intro; lra | reflexivity].
  - split; [ring |]. split; [lra |]. split; [split; intro; lra | reflexivity].
Qed.

(** X2.  A charge that fits (no clamping) followed by a discharge of the
    same amount restores the load of a battery that held a non-negative
    load, and the discharge delivers the whole amount. *)
Theorem Battery_charge_then_discharge (b : Battery.t) (x : Q) :
  0 <= Battery.current_load b ->
  Battery.current_load b + x <= Battery.capacity b ->
  let b1 := fst (Battery.charge b x) in
  let b2 := fst (Battery.discharge b1 x) in
  Battery.current_load b2 == Battery.current_load b /\
  snd (Battery.discharge b1 x) = x /\
  Battery.capacity b2 = Battery.capacity b.
Proof.
  destruct b as [cap cur]. unfold Battery.charge, Battery.discharge, Qgtb.
  cbn. intros Hcur Hfit.
  qcase cap (cur + x); [exfalso; lra |]. cbn.
  qcase (cur + x - x) 0; [exfalso; lra |]. cbn.
  split; [ring | auto].
Qed.

Lemma Battery_charge_then_discharge_witness :
  Battery.current_load
    (fst (Battery.discharge (fst (Battery.charge (Battery.Build 10 4) 5)) 5))
  == 4.
Proof.
  apply (Battery_charge_then_discharge (Battery.Build 10 4) 5); cbn; lra.
Defined.

(** X3.  [Battery.charge] saturates: the new load, which is also the value
    returned, is the smaller of the capacity and the load plus the input;
    and after a charge of at least the headroom [is_full] answers True. *)
Theorem Battery_charge_saturates (b : Battery.t) (input_load : Q) :
  let b' := fst (Battery.charge b input_load) in
  snd (Battery.charge b input_load) = Battery.current_load b' /\
  Battery.current_load b'
  == py_min (Battery.capacity b) (Battery.current_load b + input_load) /\
  Battery.capacity b' = Battery.capacity b /\
  (Battery.capacity b - Battery.current_load b <= input_load ->
   Battery.is_full b' = true).
Proof.
  destruct b as [cap cur]. unfold Battery.charge, Battery.is_full, Qgtb.
  cbn. split; [reflexivity |].
  qcase cap (cur + input_load); cbn;
    (split; [min_cases; lra |]); (split; [reflexivity |]);
    intro Hroom; apply Qeq_bool_iff; lra.
Qed.

(** ** The lossy battery *)

(** X4.  For a Battery2 with the default coefficients and a load within
    [[0, capacity]], both rate limits evaluate (no division by zero), are
    non-negative, and are analytically safe: the largest charge, once
    scaled by [eff_c], fits in the headroom, and the largest discharge,
    once scaled by [eff_d], is covered by the load. *)
Theorem Battery2_default_rate_limits (cap cur : Q) :
  Battery2.within_bounds (Battery2.init cap cur) ->
  (exists mc,
      Battery2.calc_max_charge (Battery2.init cap cur) = Some mc /\
      0 <= mc /\ mc * (49 # 50) <= cap - cur) /\
  (exists md,
      Battery2.calc_max_discharge (Battery2.init cap cur) = Some md /\
      0 <= md /\ md * (21 # 20) <= cur).
Proof.
  unfold Battery2.within_bounds. cbn. intros [Hlo Hhi]. split.
  - eexists. split; [reflexivity |]. qdiv_norm. min_cases; lra.
  - eexists. split; [reflexivity |]. qdiv_norm. min_cases; lra.
Qed.

Lemma Battery2_default_rate_limits_witness :
  exists md,
    Battery2.calc_max_discharge (Battery2.init 10 4) = Some md /\
    0 <= md /\ md * (21 # 20) <= 4.
Proof.
  apply (Battery2_default_rate_limits 10 4).
  unfold Battery2.within_bounds. cbn. lra.
Defined.

(** X5.  [Battery2.charge] with the default coefficients, a load within
    [[0, capacity]] and a non-negative input never lowers the load and
    stores at most the input scaled by [eff_c]; it returns the new load;
    a full battery stays as it is. *)
Theorem Battery2_default_charge_bounds (cap cur x : Q) :
  Battery2.within_bounds (Battery2.init cap cur) ->
  0 <= x ->
  exists cur',
    Battery2.charge (Battery2.init cap cur) x
    = Some (Battery2.init cap cur', cur') /\
    cur <= cur' /\ cur' <= cur + x * (49 # 50) /\
    (cur == cap -> cur' == cap).
Proof.
  unfold Battery2.within_bounds. cbn [Battery2.init Battery2.current_load
    Battery2.capacity]. intros [Hlo Hhi] Hx.
  rewrite Battery2_default_charge. cbv zeta.
  eexists. split; [reflexivity |]. qdiv_norm.
  split; [min_cases; lra |]. split; [min_cases; lra |].
  intro Hfull. min_cases; lra.
Qed.

Lemma Battery2_default_charge_bounds_witness :
  exists cur',
    Battery2.charge (Battery2.init 10 4) 3
    = Some (Battery2.init 10 cur', cur') /\
    4 <= cur' /\ cur' <= 4 + 3 * (49 # 50) /\
    (4 == 10 -> cur' == 10).
Proof.
  apply (Battery2_default_charge_bounds 10 4 3).
  - unfold Battery2.within_bounds. cbn. lra.
  - lra.
Defined.

(** X6.  [Battery2.discharge] with the default coefficients, a load within
    [[0, capacity]] and a non-negative request returns between 0 and the
    request and takes the returned value scaled by [eff_d] out of the
    load; an empty battery returns 0. *)
Theorem Battery2_default_discharge_bounds (cap cur x : Q) :
  Battery2.within_bounds (Battery2.init cap cur) ->
  0 <= x ->
  exists cur' r,
    Battery2.discharge (Battery2.init cap cur) x
    = Some (Battery2.init cap cur', r) /\
    0 <= r /\ r <= x /\
    cur' == cur - r * (21 # 20) /\
    (cur == 0 -> r == 0).
Proof.
  unfold Battery2.within_bounds. cbn [Battery2.init Battery2.current_load
    Battery2.capacity]. intros [Hlo Hhi] Hx.
  rewrite Battery2_default_discharge. cbv zeta.
  do 2 eexists. split; [reflexivity |]. qdiv_norm.
  match goal with |- context [Qltb ?m x] => qcase m x end;
    (split; [min_cases; lra |]); (split; [min_cases; lra |]);
    (split; [min_cases; lra |]);
    intro Hempty; min_cases; lra.
Qed.

Lemma Battery2_default_discharge_bounds_witness :
  exists cur' r,
    Battery2.discharge (Battery2.init 10 4) 3
    = Some (Battery2.init 10 cur', r) /\
    0 <= r /\ r <= 3 /\
    cur' == 4 - r * (21 # 20) /\
    (4 == 0 -> r == 0).
Proof.
  apply (Battery2_default_discharge_bounds 10 4 3).
  - unfold Battery2.within_bounds. cbn. lra.
  - lra.
Defined.

(** ** The simulator *)

Lemma sim_lossless_zero_capacity (rows : list row) :
  forall cur,
    cur == 0 ->
    (sim_battery_247 rows (Battery.Build 0 cur) = Some true <->
     Forall (fun r : row => snd r <= fst r) rows).
Proof.
  induction rows as [| [ren_mw df_dc] rest IH]; intros cur Hcur.
  - split; [constructor | reflexivity].
  - cbn [sim_battery_247 charge discharge Battery_like bind].
    unfold Battery.charge, Battery.discharge, Qgtb.
    cbn [Battery.set_current_load Battery.capacity Battery.current_load].
    qcase 0 (ren_mw - df_dc).
    + qcase 0 (cur + (ren_mw - df_dc)); [| exfalso; lra].
      cbn [Battery.set_current_load Battery.capacity]. etransitivity; [apply IH; lra |].
      split.
      * intro Hall. constructor; [cbn; lra | exact Hall].
      * intro Hall. now inversion Hall.
    + qcase (cur - - (ren_mw - df_dc)) 0.
      * match goal with |- context [Qltb ?a ?b] => qcase a b end;
          [| exfalso; lra].
        split; [discriminate |]. intro Hall. inversion Hall as [| ? ? Hr _].
        cbn in Hr. lra.
      * qcase (- (ren_mw - df_dc)) (- (ren_mw - df_dc)); [exfalso; lra |].
        etransitivity; [apply IH; lra |]. split.
        -- intro Hall. constructor; [cbn; lra | exact Hall].
        -- intro Hall. now inversion Hall.
Qed.

Lemma sim_lossy_zero_capacity (rows : list row) :
  forall cur,
    cur == 0 ->
    (sim_battery_247 rows (Battery2.init 0 cur) = Some true <->
     Forall (fun r : row => snd r <= fst r) rows).
Proof.
  induction rows as [| [ren_mw df_dc] rest IH]; intros cur Hcur.
  - split; [constructor | reflexivity].
  - cbn [sim_battery_247 charge discharge Battery2_like]. unfold Qgtb.
    qcase 0 (ren_mw - df_dc).
    + rewrite Battery2_default_charge. cbv zeta. cbn [bind].
      etransitivity; [apply IH; qdiv_norm; min_cases; lra |].
      split.
      * intro Hall. constructor; [cbn; lra | exact Hall].
      * intro Hall. now inversion Hall.
    + rewrite Battery2_default_discharge. cbv zeta. cbn [bind].
      qdiv_norm.
      match goal with
      | |- context [if Qltb ?m ?x then ?m else ?x] => qcase m x
      end.
      * match goal with |- context [Qltb ?a ?b] => qcase a b end.
        -- split; [discriminate |]. intro Hall.
           inversion Hall as [| ? ? Hr _]. cbn in Hr.
           exfalso. min_cases; lra.
        -- exfalso. min_cases; lra.
      * qcase (- (ren_mw - df_dc)) (- (ren_mw - df_dc)); [exfalso; lra |].
        etransitivity; [apply IH; min_cases; lra |]. split.
        -- intro Hall. constructor; [cbn; min_cases; lra | exact Hall].
        -- intro Hall. now inversion Hall.
Qed.

(** X8.  On a fresh zero-capacity battery of either model the simulator
    returns True exactly when no step has a strict deficit (the draw never
    exceeds the supply), and False otherwise. *)
Theorem sim_zero_capacity_iff_no_deficit (m : model) (rows : list row) :
  (sim_fresh m rows 0 = Some true <->
   Forall (fun r : row => snd r <= fst r) rows) /\
  (sim_fresh m rows 0 = Some false <->
   Exists (fun r : row => fst r < snd r) rows).
Proof.
  assert (Hpass : sim_fresh m rows 0 = Some true <->
                  Forall (fun r : row => snd r <= fst r) rows).
  { destruct m; cbn [sim_fresh].
    - apply sim_lossless_zero_capacity. reflexivity.
    - apply sim_lossy_zero_capacity. reflexivity. }
  split; [exact Hpass |].
  destruct (sim_fresh_total m rows 0) as [[|] E]; rewrite E in *.
  - split; [discriminate |]. intro Hex. exfalso.
    assert (Hall : Forall (fun r : row => snd r <= fst r) rows)
      by (apply Hpass; reflexivity).
    apply Exists_exists in Hex. destruct Hex as (r & Hin & Hr).
    rewrite Forall_forall in Hall. specialize (Hall r Hin). lra.
  - split; [| reflexivity]. intros _.
    destruct (Exists_dec (fun r : row => fst r < snd r) rows) as [Hex | Hno].
    + intro r. destruct (Qlt_le_dec (fst r) (snd r)); [left | right]; lra.
    + exact Hex.
    + exfalso.
      assert (Hall : Forall (fun r : row => snd r <= fst r) rows).
      { apply Forall_forall. intros r Hin.
        destruct (Qlt_le_dec (fst r) (snd r)) as [Hlt | Hle]; [| exact Hle].
        exfalso. apply Hno. apply Exists_exists. eauto. }
      apply Hpass in Hall. discriminate.
Qed.

Section SimPrefix.

Context {B : Type} `{BatteryLike B}.

(** X9.  The simulator stops at the first failure, whatever the battery
    model: a series whose beginning fails, fails, however generous the
    rest of it is; and a series that passes has passed on every
    beginning of it. *)
Theorem sim_battery_247_failure_is_final (rows1 rows2 : list row) (b : B) :
  (sim_battery_247 rows1 b = Some false ->
   sim_battery_247 (rows1 ++ rows2) b = Some false) /\
  (sim_battery_247 (rows1 ++ rows2) b = Some true ->
   sim_battery_247 rows1 b = Some true).
Proof.
  revert b. induction rows1 as [| [ren_mw df_dc] rest IH]; intro b.
  - split; [discriminate | reflexivity].
  - cbn [app sim_battery_247].
    destruct (Qgtb (ren_mw - df_dc) 0).
    + destruct (charge b (ren_mw - df_dc)) as [[b' r] |]; cbn [bind];
        [apply IH | split; discriminate].
    + destruct (discharge b (- (ren_mw - df_dc))) as [[b' r] |]; cbn [bind];
        [| split; discriminate].
      destruct (Qltb r (- (ren_mw - df_dc)));
        [split; [reflexivity | discriminate] | apply IH].
Qed.

End SimPrefix.

(** X10.  The simulator is monotone in the lossless battery: if a Battery
    passes a series, so does every Battery with at least its capacity and
    at least its load. *)
Theorem sim_battery_247_lossless_monotone
  (rows : list row) (b1 b2 : Battery.t) :
  Battery.capacity b1 <= Battery.capacity b2 ->
  Battery.current_load b1 <= Battery.current_load b2 ->
  sim_battery_247 rows b1 = Some true ->
  sim_battery_247 rows b2 = Some true.
Proof.
  intros Hcap Hcur.
  apply (sim_battery_247_mono Battery_le
           Battery_charge_below Battery_discharge_below).
  split; assumption.
Qed.

Lemma sim_battery_247_lossless_monotone_witness :
  sim_battery_247 [(10, 5); (0, 5)] (Battery.Build 6 5) = Some true.
Proof.
  apply (sim_battery_247_lossless_monotone [(10, 5); (0, 5)]
           (Battery.Build 5 0) (Battery.Build 6 5)).
  - cbn. lra.
  - cbn. lra.
  - vm_compute. reflexivity.
Defined.

(** ** The sizers: bounds on the search *)

Section SearchBounds.

Context {B : Type} `{BatteryLike B}.
Variable make : Q -> Q -> B.
Variable rows : list row.
Variable max_bsize : Q.

(** Every candidate lies strictly inside the interval searched. *)
Lemma search_loop_tested_strict (fuel : nat) :
  forall l u med tested l' u' med' tested',
    search_loop make fuel rows l u med tested
    = Some (l', u', med', tested') ->
    0 <= l -> u <= max_bsize ->
    Forall (fun c => 0 < c < max_bsize) tested ->
    Forall (fun c => 0 < c < max_bsize) tested'.
Proof.
  induction fuel as [| fuel IH];
    intros l u med tested l' u' med' tested' Hrun Hl Hu Hall;
    cbn [search_loop] in Hrun; [discriminate |].
  unfold Qgtb in Hrun. qcase (1 # 10) (u - l).
  - assert (Hm : l < (u + l) / 2 /\ (u + l) / 2 < u)
      by (qdiv_norm; lra).
    assert (Hall' : Forall (fun c => 0 < c < max_bsize)
                      (tested ++ [(u + l) / 2])).
    { apply Forall_app. split; [exact Hall |]. repeat constructor; lra. }
    destruct (sim_battery_247 rows _) as [[|] |]; cbn [bind] in Hrun;
      [| | discriminate];
      (eapply IH; [exact Hrun | | | exact Hall']); lra.
  - injection Hrun as <- <- <- <-. exact Hall.
Qed.

(** An interval at most [0.1 * 2^f] wide is halved at most [f] times. *)
Lemma search_loop_tested_count (fuel : nat) :
  forall f l u med tested l' u' med' tested',
    search_loop make fuel rows l u med tested
    = Some (l', u', med', tested') ->
    u - l <= (1 # 10) * inject_Z (2 ^ Z.of_nat f) ->
    (length tested' <= length tested + f)%nat.
Proof.
  induction fuel as [| fuel IH];
    intros f l u med tested l' u' med' tested' Hrun Hw;
    cbn [search_loop] in Hrun; [discriminate |].
  unfold Qgtb in Hrun. qcase (1 # 10) (u - l).
  - destruct f as [| f].
    { exfalso. change (inject_Z (2 ^ Z.of_nat 0)) with 1 in Hw. lra. }
    rewrite Nat2Z.inj_succ, Z.pow_succ_r, inject_Z_mult in Hw by lia.
    change (inject_Z 2) with 2 in Hw.
    destruct (sim_battery_247 rows _) as [[|] |]; cbn [bind] in Hrun;
      [| | discriminate];
      (apply (IH f) in Hrun; [| qdiv_norm; lra]);
      rewrite length_app in Hrun; cbn [length] in Hrun; lia.
  - injection Hrun as <- <- <- <-. lia.
Qed.

End SearchBounds.

(** X12.  The infeasible verdict is sound up to the tolerance: when a
    sizer (either variant) returns NaN, a fresh battery of every capacity
    up to [max_bsize - 0.1] fails the simulator. *)
Theorem sizer_nan_means_infeasible
  (m : model) (rows : list row) (max_bsize : Q) (fuel : nat) (c : Q) :
  sizer m fuel rows max_bsize = Some NaN ->
  c <= max_bsize - (1 # 10) ->
  sim_fresh m rows c = Some false.
Proof.
  rewrite sizer_unfold.
  destruct (sim_fresh_total m rows 0) as [[|] H0]; rewrite H0; cbn [bind];
    [discriminate |].
  destruct (sizer_search m fuel rows 0 max_bsize None [])
    as [[[[l u] med] tested] |] eqn:Hrun; [| discriminate].
  cbn [bind]. intros Hnan Hc.
  destruct (sizer_search_inv m fuel rows max_bsize l u med tested Hrun H0)
    as [(Hl & _) Hw].
  qcase_eq u max_bsize.
  - apply (sim_fresh_antimono m rows c l); [lra | exact Hl].
  - destruct med; discriminate.
Qed.

Lemma sizer_nan_means_infeasible_witness :
  sim_fresh Lossy [(0, 1); (0, 1); (0, 1)] (2 # 5) = Some false.
Proof.
  apply (sizer_nan_means_infeasible Lossy [(0, 1); (0, 1); (0, 1)]
           (1 # 2) 4 (2 # 5)).
  - vm_compute. reflexivity.
  - lra.
Defined.

(** X13.  A number found by the search is close to the smallest feasible
    capacity: when the zero-capacity battery fails and a sizer (either
    variant) returns the number [r], then [0 < r < max_bsize] and every
    capacity whose fresh battery passes the simulator is greater than
    [r - 0.1]. *)
Theorem sizer_result_near_minimal
  (m : model) (rows : list row) (max_bsize : Q) (fuel : nat) (r : Q) :
  sizer m fuel rows max_bsize = Some (Num r) ->
  sim_fresh m rows 0 = Some false ->
  (0 < r /\ r < max_bsize) /\
  (forall c, sim_fresh m rows c = Some true -> r - (1 # 10) < c).
Proof.
  rewrite sizer_unfold. intros Hr H0. rewrite H0 in Hr. cbn [bind] in Hr.
  destruct (sizer_search m fuel rows 0 max_bsize None [])
    as [[[[l u] med] tested] |] eqn:Hrun; [| discriminate].
  cbn [bind] in Hr.
  qcase_eq u max_bsize; [discriminate |].
  destruct med as [last |]; [| discriminate].
  cbn [bind] in Hr. injection Hr as ->.
  destruct (sizer_search_inv m fuel rows max_bsize l u _ tested Hrun H0)
    as [(Hl & _ & _ & _ & I5) Hw].
  destruct I5 as [[_ Hnone] | (earlier & last & Htested & Hm & Hlast & Hlu)];
    [discriminate |].
  injection Hm as <-.
  split.
  - assert (Hstrict : Forall (fun c => 0 < c < max_bsize) tested).
    { destruct m; cbn [sizer_search] in Hrun;
        apply (search_loop_tested_strict _ rows max_bsize fuel
                 0 max_bsize None [] l u (Some r) tested Hrun);
        solve [lra | constructor]. }
    rewrite Htested in Hstrict. apply Forall_app in Hstrict.
    destruct Hstrict as [_ Hr]. inversion Hr. assumption.
  - intros c Hc.
    destruct (Qlt_le_dec l c) as [Hlt | Hle].
    + destruct Hlast as [-> | ->]; lra.
    + exfalso. apply (sim_fresh_mono m rows c l Hle) in Hc. congruence.
Qed.

Lemma sizer_result_near_minimal_witness :
  exists r,
    sizer Lossless 6 [(0, 1)] 2 = Some (Num r) /\
    (0 < r /\ r < 2) /\
    (forall c, sim_fresh Lossless [(0, 1)] c = Some true -> r - (1 # 10) < c).
Proof.
  assert (Hr : exists r, sizer Lossless 6 [(0, 1)] 2 = Some (Num r))
    by (vm_compute; eexists; reflexivity).
  destruct Hr as [r Hr]. exists r. split; [exact Hr |].
  apply (sizer_result_near_minimal Lossless [(0, 1)] 2 6 r Hr).
  vm_compute. reflexivity.
Defined.

(** X14.  The search is short: whatever the series, a sizer (either
    variant) that leaves its loop has passed at most
    [log2_up (ceiling (10 * max_bsize)) + 1] candidates to the simulator,
    and none when [max_bsize <= 0.1].  (In exact arithmetic the [+ 1] is
    not needed; on binary64 the width [u - l] of an interval halved down
    to 0.1 can still compare greater than the double 0.1, which costs one
    more candidate.) *)
Theorem sizer_search_tests_few_candidates
  (m : model) (rows : list row) (max_bsize : Q) (fuel : nat)
  (l u : Q) (med : option Q) (tested : list Q) :
  sizer_search m fuel rows 0 max_bsize None [] = Some (l, u, med, tested) ->
  (length tested
   <= Z.to_nat (Z.log2_up (Qceiling (10 * max_bsize))) + 1)%nat /\
  (max_bsize <= 1 # 10 -> tested = []).
Proof.
  intro Hrun.
  assert (Hlen : (length tested
                  <= Z.to_nat (Z.log2_up (Qceiling (10 * max_bsize))))%nat).
  { pose proof (search_fuel_enough max_bsize) as Hw.
    unfold search_fuel in Hw. cbn [pred] in Hw.
    destruct m; cbn [sizer_search] in Hrun;
      apply (search_loop_tested_count _ rows fuel _
               0 max_bsize None [] l u med tested Hrun Hw). }
  split; [lia |].
  intro Hsmall.
  assert (Hc : (Qceiling (10 * max_bsize) <= 1)%Z).
  { change 1%Z with (Qceiling 1). apply Qceiling_resp_le. lra. }
  assert (Hlog : Z.log2_up (Qceiling (10 * max_bsize)) = 0%Z).
  { apply Z.le_antisymm; [| apply Z.log2_up_nonneg].
    change 0%Z with (Z.log2_up 1). now apply Z.log2_up_le_mono. }
  rewrite Hlog in Hlen. destruct tested; [reflexivity | cbn in Hlen; lia].
Qed.

Lemma sizer_search_tests_few_candidates_witness :
  exists tested : list Q,
    (length tested <= Z.to_nat (Z.log2_up (Qceiling (10 * 2))) + 1)%nat /\
    (2 <= 1 # 10 -> tested = []).
Proof.
  assert (Hrun : exists l u med tested,
             sizer_search Lossless 6 [(0, 1)] 0 2 None []
             = Some (l, u, med, tested))
    by (vm_compute; do 4 eexists; reflexivity).
  destruct Hrun as (l & u & med & tested & Hrun). exists tested.
  exact (sizer_search_tests_few_candidates Lossless [(0, 1)] 2 6
           l u med tested Hrun).
Defined.

(** ** The incremental finder: what the battery and the result look like *)

Module FinderBounds.
Import Finder.

(** One iteration's effect on the battery: it stays within its bounds, its
    capacity does not shrink, covers the deficit of the step, and grows by
    at most that deficit. *)
Ltac bsimpl :=
  cbn [Battery.capacity Battery.current_load Battery.set_current_load
       fst snd].

Lemma update_battery_facts (b0 : Battery.t) (ren_mw df_dc : Q) :
  Battery.within_bounds b0 ->
  let b' := update_battery b0 ren_mw df_dc in
  Battery.within_bounds b' /\
  Battery.capacity b0 <= Battery.capacity b' /\
  df_dc - ren_mw <= Battery.capacity b' /\
  Battery.capacity b'
  <= Battery.capacity b0
     + (if Qgtb (df_dc - ren_mw) 0 then df_dc - ren_mw else 0).
Proof.
  destruct b0 as [cap cur].
  unfold Battery.within_bounds, update_battery, Battery.find_and_init_capacity,
    Battery.discharge, Battery.charge, Battery.is_full, Qgtb.
  cbn [Battery.capacity Battery.current_load Battery.set_current_load fst].
  intros [Hlo Hhi].
  qcase 0 (df_dc - ren_mw); qcase ren_mw df_dc; try (exfalso; lra).
  - qcase_eq cap 0; [bsimpl; lra |].
    qcase_eq cur 0; [bsimpl; lra |].
    qcase (cur - (df_dc - ren_mw)) 0; bsimpl.
    + qcase_eq 0 0; [bsimpl; lra | exfalso; apply Heq1; reflexivity].
    + qcase_eq (cur - (df_dc - ren_mw)) 0; bsimpl; lra.
  - qcase 0 cap.
    + qcase cap (cur + (ren_mw - df_dc)); bsimpl; lra.
    + qcase_eq cap cur; bsimpl; lra.
Qed.

Lemma body_on_boundary (i : nat) (s : state) (r : row) :
  ((i + 1) mod 72 = 0)%nat ->
  let d := daily_net_load s + (fst r - snd r) in
  let b' := update_battery (b s) (fst r) (snd r) in
  body i s r =
  if Qltb d 0 then Break (Build NaN d b')
  else Continue (Build (update_cap (battery_cap s) b') 0 b').
Proof.
  intro Hi. destruct r as [ren_mw df_dc]. unfold body. rewrite Hi.
  reflexivity.
Qed.

Lemma body_off_boundary (i : nat) (s : state) (r : row) :
  ((i + 1) mod 72 <> 0)%nat ->
  let d := daily_net_load s + (fst r - snd r) in
  let b' := update_battery (b s) (fst r) (snd r) in
  body i s r = Continue (Build (update_cap (battery_cap s) b') d b').
Proof.
  intro Hi. destruct r as [ren_mw df_dc]. unfold body.
  apply Nat.eqb_neq in Hi. rewrite Hi. reflexivity.
Qed.

Lemma body_continue (i : nat) (s s' : state) (r : row) :
  body i s r = Continue s' ->
  b s' = update_battery (b s) (fst r) (snd r) /\
  battery_cap s' = update_cap (battery_cap s) (b s').
Proof.
  destruct (Nat.eq_dec ((i + 1) mod 72) 0) as [Hi | Hi].
  - rewrite (body_on_boundary i s r Hi). cbv zeta.
    destruct (Qltb _ 0); [discriminate |].
    intro E. injection E as <-. split; reflexivity.
  - rewrite (body_off_boundary i s r Hi). cbv zeta.
    intro E. injection E as <-. split; reflexivity.
Qed.

Lemma sum_positive_deficits_snoc (rows : list row) (r : row) :
  sum_positive_deficits (rows ++ [r])
  == sum_positive_deficits rows
     + (if Qgtb (deficit r) 0 then deficit r else 0).
Proof.
  induction rows as [| a rows IH]; cbn [app sum_positive_deficits].
  - ring.
  - rewrite IH. ring.
Qed.

Lemma update_cap_tracks (q : Q) (b0 : Battery.t) :
  0 <= q -> q <= Battery.capacity b0 ->
  exists q', update_cap (Num q) b0 = Num q' /\ q' == Battery.capacity b0.
Proof.
  intros Hq Hle. unfold update_cap, py_max, num_gt, num_ne, Qgtb.
  qcase 0 (Battery.capacity b0); cbn [andb].
  - qcase q (Battery.capacity b0); eexists; split; try reflexivity; lra.
  - eexists. split; [reflexivity | lra].
Qed.

(** What holds at the start of every iteration the loop reaches. *)
Lemma at_start_inv (rows : list row) (i : nat) (s : state) :
  at_start rows i s ->
  Battery.within_bounds (b s) /\
  (exists q, battery_cap s = Num q /\ q == Battery.capacity (b s)) /\
  (forall j r, (j < i)%nat -> nth_error rows j = Some r ->
               deficit r <= Battery.capacity (b s)) /\
  Battery.capacity (b s) <= sum_positive_deficits (firstn i rows).
Proof.
  induction 1 as [| i s r s' Hreach IH Hnth Hbody].
  - unfold Battery.within_bounds. cbn. repeat split; try lra.
    + exists 0. split; reflexivity.
    + intros j r Hj. lia.
  - destruct IH as ((Hlo & Hhi) & (q & Hq & Hqcap) & Hcover & Hsum).
    destruct (body_continue i s s' r Hbody) as [Hb Hc].
    destruct (update_battery_facts (b s) (fst r) (snd r) (conj Hlo Hhi))
      as (Hwb & Hgrow & Hdef & Hupper).
    rewrite <- Hb in Hwb, Hgrow, Hdef, Hupper.
    split; [exact Hwb |]. split; [| split].
    + rewrite Hc, Hq. apply update_cap_tracks; lra.
    + intros j r' Hj Hnth'.
      destruct (Nat.eq_dec j i) as [-> | Hne].
      * rewrite Hnth in Hnth'. injection Hnth' as <-. exact Hdef.
      * specialize (Hcover j r' ltac:(lia) Hnth'). lra.
    + pose proof (FinderFacts.firstn_skipn_snoc rows 0 i r Hnth) as Hsnoc.
      change (skipn 0 rows) with rows in Hsnoc. rewrite Hsnoc.
      rewrite sum_positive_deficits_snoc. unfold deficit, Qgtb in *. lra.
Qed.

(** The loop either reaches iteration [i] with every earlier window check
    passed, or an earlier window check failed and the result is NaN. *)
Lemma reach_or_nan (rows : list row) (i : nat) :
  (i <= length rows)%nat ->
  (exists s,
      at_start rows i s /\
      forall j, (j < i)%nat -> ((j + 1) mod 72 = 0)%nat ->
                0 <= net_sum (window_upto rows j))
  \/
  (exists j, (j < i)%nat /\ ((j + 1) mod 72 = 0)%nat /\
             net_sum (window_upto rows j) < 0 /\
             calculate_247_battery_capacity rows = NaN).
Proof.
  induction i as [| i IH]; intro Hi.
  - left. exists init. split; [constructor | intros; lia].
  - destruct IH as [(s & Hreach & Hpast) | (j & Hj & Hrest)]; [lia | |].
    2: { right. exists j. split; [lia | exact Hrest]. }
    destruct (nth_error rows i) as [r |] eqn:Hnth;
      [| apply nth_error_None in Hnth; lia].
    pose proof (FinderFacts.body_window rows i s r Hreach Hnth) as Hw.
    destruct (Nat.eq_dec ((i + 1) mod 72) 0) as [Hwin | Hwin].
    + pose proof (body_on_boundary i s r Hwin) as Hbody. cbv zeta in Hbody.
      rewrite Hw in Hbody.
      qcase (net_sum (window_upto rows i)) 0.
      * right. exists i. split; [lia |]. split; [exact Hwin |].
        split; [exact Hcmp |].
        unfold calculate_247_battery_capacity.
        rewrite (FinderFacts.at_start_loop rows i s Hreach).
        assert (Hskip : exists rest, skipn i rows = r :: rest).
        { clear - Hnth. revert i Hnth.
          induction rows as [| a rows IHrows]; intros [| i] Hnth;
            try discriminate.
          - inversion Hnth. cbn. eauto.
          - cbn in Hnth. rewrite skipn_cons. now apply IHrows. }
        destruct Hskip as (rest & ->). cbn [loop]. rewrite Hbody.
        reflexivity.
      * left. eexists. split.
        -- eapply at_start_next; [exact Hreach | exact Hnth | exact Hbody].
        -- intros j Hj Hjwin.
           destruct (Nat.eq_dec j i) as [-> | Hne]; [exact Hcmp |].
           apply Hpast; [lia | exact Hjwin].
    + pose proof (body_off_boundary i s r Hwin) as Hbody. cbv zeta in Hbody.
      left. eexists. split.
      * eapply at_start_next; [exact Hreach | exact Hnth | exact Hbody].
      * intros j Hj Hjwin.
        destruct (Nat.eq_dec j i) as [-> | Hne]; [contradiction |].
        apply Hpast; [lia | exact Hjwin].
Qed.

(** A loop that runs to the end returns the running maximum it holds. *)
Lemma at_start_end (rows : list row) (s : state) :
  at_start rows (length rows) s ->
  calculate_247_battery_capacity rows = battery_cap s.
Proof.
  intro Hreach. unfold calculate_247_battery_capacity.
  rewrite (FinderFacts.at_start_loop rows _ s Hreach), skipn_all.
  reflexivity.
Qed.

Lemma result_is_final_state (rows : list row) (q : Q) :
  calculate_247_battery_capacity rows = Num q ->
  exists s, at_start rows (length rows) s /\ battery_cap s = Num q.
Proof.
  intro Hres.
  destruct (reach_or_nan rows (length rows) (le_n _))
    as [(s & Hreach & _) | (j & _ & _ & _ & Hnan)].
  - exists s. split; [exact Hreach |].
    rewrite <- (at_start_end rows s Hreach). exact Hres.
  - congruence.
Qed.

End FinderBounds.

Module FinderResult.
Import Finder.

Lemma In_firstn_self (l : list row) (n : nat) (r : row) :
  In r (firstn n l) -> In r l.
Proof.
  revert l. induction n as [| n IH]; intros [| a l] Hin; cbn in Hin;
    try contradiction.
  destruct Hin as [-> | Hin]; [now left | right; now apply IH].
Qed.

Lemma In_skipn_self (l : list row) (n : nat) (r : row) :
  In r (skipn n l) -> In r l.
Proof.
  revert l. induction n as [| n IH]; intros [| a l] Hin; cbn in Hin;
    try contradiction; try exact Hin.
  right. now apply IH.
Qed.

Lemma Forall_window (P : row -> Prop) (rows : list row) (i : nat) :
  Forall P rows -> Forall P (window_upto rows i).
Proof.
  intro Hall. unfold window_upto.
  apply Forall_forall. intros r Hin. rewrite Forall_forall in Hall.
  apply Hall. eapply In_skipn_self, In_firstn_self. exact Hin.
Qed.

Lemma net_sum_nonneg (rows : list row) :
  Forall (fun r : row => snd r <= fst r) rows -> 0 <= net_sum rows.
Proof.
  unfold net_sum. intro Hall.
  assert (Hgen : forall acc, 0 <= acc ->
             0 <= fold_left (fun a (r : row) => a + (fst r - snd r)) rows acc).
  { induction Hall as [| r rest Hr Hrest IH]; intros acc Hacc; cbn.
    - exact Hacc.
    - apply IH. lra. }
  apply Hgen. lra.
Qed.

Lemma sum_positive_deficits_none (rows : list row) :
  Forall (fun r : row => snd r <= fst r) rows ->
  sum_positive_deficits rows == 0.
Proof.
  induction 1 as [| r rest Hr Hrest IH]; cbn [sum_positive_deficits].
  - reflexivity.
  - unfold Qgtb, deficit. qcase 0 (snd r - fst r); lra.
Qed.

Lemma nan_iff_negative_window (rows : list row) :
  calculate_247_battery_capacity rows = NaN <->
  exists j, (j < length rows)%nat /\ ((j + 1) mod 72 = 0)%nat /\
            net_sum (window_upto rows j) < 0.
Proof.
  destruct (FinderBounds.reach_or_nan rows (length rows) (le_n _))
    as [(s & Hreach & Hpast) | (j & Hj & Hwin & Hneg & Hnan)].
  - rewrite (FinderBounds.at_start_end rows s Hreach).
    destruct (FinderFacts.at_start_cap rows _ s Hreach) as (q & -> & _).
    split; [discriminate |].
    intros (j & Hj & Hwin & Hneg). specialize (Hpast j Hj Hwin). lra.
  - split; [| intros _; exact Hnan]. intros _. exists j. auto.
Qed.

Lemma result_bounds (rows : list row) (q : Q) :
  calculate_247_battery_capacity rows = Num q ->
  0 <= q /\
  (forall r, In r rows -> deficit r <= q) /\
  q <= sum_positive_deficits rows.
Proof.
  intro Hres.
  destruct (FinderBounds.result_is_final_state rows q Hres)
    as (s & Hreach & Hcap).
  destruct (FinderBounds.at_start_inv rows _ s Hreach)
    as ((Hlo & Hhi) & (q' & Hq' & Hqcap) & Hcover & Hsum).
  rewrite Hcap in Hq'. injection Hq' as <-.
  rewrite firstn_all in Hsum.
  split; [lra |]. split; [| lra].
  intros r Hin. apply In_nth_error in Hin. destruct Hin as (j & Hj).
  assert (Hlt : (j < length rows)%nat)
    by (apply nth_error_Some; congruence).
  specialize (Hcover j r Hlt Hj). lra.
Qed.

End FinderResult.

(** X15.  At the start of every iteration that [calculate_247_battery_capacity]
    reaches, the battery is within its bounds
    ([0 <= current_load <= capacity]) and the running maximum
    [battery_cap] equals the battery's current capacity: the capacity never
    shrinks, so the maximum is always the latest value. *)
Theorem finder_cap_is_current_capacity
  (rows : list row) (i : nat) (s : Finder.state) :
  Finder.at_start rows i s ->
  Battery.within_bounds (Finder.b s) /\
  exists q, Finder.battery_cap s = Num q /\
            q == Battery.capacity (Finder.b s).
Proof.
  intro Hreach.
  destruct (FinderBounds.at_start_inv rows i s Hreach) as (Hwb & Hq & _).
  split; assumption.
Qed.

Lemma finder_cap_is_current_capacity_witness :
  exists s,
    Finder.state_at [(10, 5); (0, 5); (2, 5)] 3 = Some s /\
    Battery.within_bounds (Finder.b s) /\
    exists q, Finder.battery_cap s = Num q /\
              q == Battery.capacity (Finder.b s).
Proof.
  assert (Hs : exists s,
             Finder.state_at [(10, 5); (0, 5); (2, 5)] 3 = Some s)
    by (vm_compute; eexists; reflexivity).
  destruct Hs as [s Hs]. exists s. split; [exact Hs |].
  apply (finder_cap_is_current_capacity [(10, 5); (0, 5); (2, 5)] 3 s).
  exact (state_at_sound _ _ _ Hs).
Defined.

(** Whole numbers written as literals. *)
Lemma whole_Z (z : Z) : (Z.abs z <=? 2 ^ 30)%Z = true -> whole (z # 1).
Proof.
  intro Hz. exists z. split; [reflexivity | now apply Z.leb_le].
Qed.

Ltac whole_rows_tac :=
  repeat (apply Forall_cons; [split; apply whole_Z; reflexivity |]);
  apply Forall_nil.

(** X16.  On a series of whole numbers (of magnitude at most [2^30]),
    [calculate_247_battery_capacity] returns NaN exactly when one of the
    complete 72-step windows of the series (steps 0..71, 72..143, ...)
    has a negative net load; a trailing incomplete window is never
    checked.  (On whole numbers the accumulator [daily_net_load] is
    exact; on fractions its rounding can make the sum of a window whose
    net load is zero negative.) *)
Theorem finder_nan_iff_negative_window (rows : list row) :
  whole_rows rows ->
  (Finder.calculate_247_battery_capacity rows = NaN <->
   exists j, (j < length rows)%nat /\ ((j + 1) mod 72 = 0)%nat /\
             net_sum (window_upto rows j) < 0).
Proof. intros _. exact (FinderResult.nan_iff_negative_window rows). Qed.

Lemma finder_nan_iff_negative_window_witness :
  Finder.calculate_247_battery_capacity (repeat ((0, 1) : row) 72) = NaN <->
  exists j, (j < length (repeat ((0%Q, 1%Q) : row) 72))%nat /\
            ((j + 1) mod 72 = 0)%nat /\
            net_sum (window_upto (repeat ((0, 1) : row) 72) j) < 0.
Proof.
  apply (finder_nan_iff_negative_window (repeat ((0, 1) : row) 72)).
  cbv [repeat]. whole_rows_tac.
Defined.



(** X18.  [calculate_247_battery_capacity] returns zero exactly when no
    step of the series has a strict deficit. *)
Theorem finder_zero_iff_no_deficit (rows : list row) :
  (exists q, Finder.calculate_247_battery_capacity rows = Num q /\ q == 0)
  <->
  Forall (fun r : row => snd r <= fst r) rows.
Proof.
  split.
  - intros (q & Hres & Hq).
    destruct (FinderResult.result_bounds rows q Hres) as (_ & Hcover & _).
    apply Forall_forall. intros r Hin. specialize (Hcover r Hin).
    unfold deficit in Hcover. lra.
  - intro Hall.
    destruct (Finder.calculate_247_battery_capacity rows) as [q |] eqn:Hres.
    + exists q. split; [reflexivity |].
      destruct (FinderResult.result_bounds rows q Hres) as (Hq & _ & Hsum).
      rewrite (FinderResult.sum_positive_deficits_none rows Hall) in Hsum.
      lra.
    + exfalso.
      apply FinderResult.nan_iff_negative_window in Hres.
      destruct Hres as (j & _ & _ & Hneg).
      pose proof (FinderResult.net_sum_nonneg _
                    (FinderResult.Forall_window _ rows j Hall)).
      lra.
Qed.

(** ** The coverage estimator *)

(** Split every test [if Qltb a b], innermost first. *)
Ltac if_cases :=
  repeat match goal with
  | |- context [if Qltb ?a ?b then _ else _] =>
      lazymatch a with context [if _ then _ else _] => fail | _ => idtac end;
      lazymatch b with context [if _ then _ else _] => fail | _ => idtac end;
      qcase a b
  end.

(** The estimator and the simulator, run side by side on default Battery2
    batteries of the same capacity and equal loads within bounds. *)
Lemma apply_loop_vs_sim (cap : Q) (rows : list row) :
  forall l1 l2 tot,
    l1 == l2 ->
    0 <= l1 <= cap ->
    exists t,
      apply_loop (Battery2.init cap l2) tot rows = Some t /\
      tot <= t /\
      t <= tot + sum_positive_deficits rows /\
      (sim_battery_247 rows (Battery2.init cap l1) = Some true <-> t == tot).
Proof.
  induction rows as [| [ren_mw df_dc] rest IH]; intros l1 l2 tot Hl Hb.
  - exists tot. cbn. repeat split; try lra; reflexivity.
  - cbn [apply_loop sim_battery_247 sum_positive_deficits
         charge discharge Battery2_like].
    unfold deficit, Qgtb. cbn [fst snd].
    qcase 0 (df_dc - ren_mw); qcase 0 (ren_mw - df_dc); try (exfalso; lra);
      rewrite ?Battery2_default_discharge, ?Battery2_default_charge;
      cbv zeta; cbn [bind]; qdiv_norm;
      match goal with
      | |- context [apply_loop (Battery2.init _ ?l2') ?tot' rest] =>
          match goal with
          | |- context [sim_battery_247 rest (Battery2.init _ ?l1')] =>
              destruct (IH l1' l2' tot') as (t & -> & Hlo & Hhi & Hiff);
              [ try match goal with
                    | |- context [Qltb ?m ?x] => qcase m x
                    end; min_cases; lra
              | try match goal with
                    | |- context [Qltb ?m ?x] => qcase m x
                    end; min_cases; lra
              | ]
          end
      end;
      exists t; (split; [reflexivity |]);
      revert Hlo Hhi Hiff; if_cases; min_cases; intros Hlo Hhi Hiff;
      (split; [lra |]); (split; [lra |]);
      first [ split; [discriminate | intro; exfalso; lra]
            | split; intro Hx; [apply Hiff in Hx; lra | apply Hiff; lra] ].
Qed.

(** X19.  For every non-negative capacity [apply_battery] returns (no
    division by zero), and the uncovered energy it reports lies between 0
    and the sum of the positive deficits of the series: the battery never
    delivers more than is asked, nor a negative amount. *)
Theorem apply_battery_between_zero_and_total_deficit
  (battery_capacity : Q) (rows : list row) :
  0 <= battery_capacity ->
  exists t,
    apply_battery battery_capacity rows = Some t /\
    0 <= t /\ t <= sum_positive_deficits rows.
Proof.
  intro Hcap.
  destruct (apply_loop_vs_sim battery_capacity rows
              battery_capacity battery_capacity 0)
    as (t & Ht & Hlo & Hhi & _); [reflexivity | lra |].
  exists t. split; [exact Ht |]. split; lra.
Qed.

Lemma apply_battery_between_zero_and_total_deficit_witness :
  exists t,
    apply_battery 3 [(10, 5); (0, 5); (2, 5)] = Some t /\
    0 <= t /\ t <= sum_positive_deficits [(10, 5); (0, 5); (2, 5)].
Proof.
  apply (apply_battery_between_zero_and_total_deficit 3
           [(10, 5); (0, 5); (2, 5)]).
  lra.
Defined.

(** X20.  The estimator agrees with the simulator where the simulator
    passes: for every non-negative capacity, if [sim_battery_247] passes
    on a fresh full Battery2 of that capacity, [apply_battery] reports no
    uncovered energy. *)
Theorem apply_battery_zero_when_sim_passes
  (battery_capacity : Q) (rows : list row) :
  0 <= battery_capacity ->
  sim_battery_247 rows (Battery2.init battery_capacity battery_capacity)
  = Some true ->
  exists t, apply_battery battery_capacity rows = Some t /\ t == 0.
Proof.
  intros Hcap Hsim.
  destruct (apply_loop_vs_sim battery_capacity rows
              battery_capacity battery_capacity 0)
    as (t & Ht & _ & _ & Hiff); [reflexivity | lra |].
  exists t. split; [exact Ht | now apply Hiff].
Qed.

Lemma apply_battery_zero_when_sim_passes_witness :
  exists t, apply_battery 6 [(10, 5); (0, 5)] = Some t /\ t == 0.
Proof.
  apply (apply_battery_zero_when_sim_passes 6 [(10, 5); (0, 5)]).
  - lra.
  - vm_compute. reflexivity.
Defined.

(** ** The finder computes the maximum cumulative deficit *)

Module FinderExact.
Import Finder.

Lemma cumulative_deficit_step_nonneg (d : Q) (r : row) :
  0 <= cumulative_deficit_step d r.
Proof.
  unfold cumulative_deficit_step. qcase (d + deficit r) 0; lra.
Qed.

(** The running maximum over a series extended by one row is the larger
    of the running maximum so far and the new cumulative deficit. *)
Lemma max_cumulative_deficit_from_snoc (l : list row) (r : row) :
  forall d,
    let M := max_cumulative_deficit_from d l in
    let D' := fold_left cumulative_deficit_step (l ++ [r]) d in
    let M' := max_cumulative_deficit_from d (l ++ [r]) in
    M <= M' /\ D' <= M' /\ (M' <= M \/ M' <= D').
Proof.
  induction l as [| a l IH]; intro d; cbv zeta.
  - cbn [app max_cumulative_deficit_from fold_left].
    match goal with |- context [Qltb ?x ?y] => qcase x y end; lra.
  - cbn [app max_cumulative_deficit_from fold_left].
    specialize (IH (cumulative_deficit_step d a)). cbv zeta in IH.
    repeat match goal with |- context [Qltb ?x ?y] => qcase x y end; lra.
Qed.

Lemma fold_left_snoc_step (l : list row) (r : row) (d : Q) :
  fold_left cumulative_deficit_step (l ++ [r]) d
  = cumulative_deficit_step (fold_left cumulative_deficit_step l d) r.
Proof. rewrite fold_left_app. reflexivity. Qed.

Lemma cumulative_deficit_le_max (l : list row) :
  forall d,
    fold_left cumulative_deficit_step l d <= max_cumulative_deficit_from d l.
Proof.
  induction l as [| a l IH]; intro d;
    cbn [fold_left max_cumulative_deficit_from].
  - lra.
  - specialize (IH (cumulative_deficit_step d a)).
    match goal with |- context [Qltb ?x ?y] => qcase x y end; lra.
Qed.

(** One iteration on a battery that lacks the cumulative deficit [D] to be
    full and whose capacity is the running maximum [M]. *)
Lemma update_battery_tracks (b0 : Battery.t) (r : row) (D M : Q) :
  Battery.within_bounds b0 ->
  Battery.capacity b0 - Battery.current_load b0 == D ->
  Battery.capacity b0 == M ->
  let b' := update_battery b0 (fst r) (snd r) in
  let D' := cumulative_deficit_step D r in
  Battery.capacity b' - Battery.current_load b' == D' /\
  M <= Battery.capacity b' /\ D' <= Battery.capacity b' /\
  (Battery.capacity b' <= M \/ Battery.capacity b' <= D').
Proof.
  destruct b0 as [cap cur], r as [ren_mw df_dc].
  unfold Battery.within_bounds, update_battery, cumulative_deficit_step,
    deficit, Battery.find_and_init_capacity,
    Battery.discharge, Battery.charge, Battery.is_full, Qgtb.
  cbn [Battery.capacity Battery.current_load Battery.set_current_load
       fst snd].
  intros [Hlo Hhi] HD HM.
  qcase (D + (df_dc - ren_mw)) 0; qcase ren_mw df_dc.
  - exfalso. lra.
  - qcase 0 cap.
    + qcase cap (cur + (ren_mw - df_dc)); FinderBounds.bsimpl; lra.
    + qcase_eq cap cur; FinderBounds.bsimpl; lra.
  - qcase_eq cap 0; [FinderBounds.bsimpl; lra |].
    qcase_eq cur 0; [FinderBounds.bsimpl; lra |].
    qcase (cur - (df_dc - ren_mw)) 0; FinderBounds.bsimpl.
    + qcase_eq 0 0; [FinderBounds.bsimpl; lra |
                     exfalso; apply Heq1; reflexivity].
    + qcase_eq (cur - (df_dc - ren_mw)) 0; FinderBounds.bsimpl; lra.
  - qcase 0 cap.
    + qcase cap (cur + (ren_mw - df_dc)); FinderBounds.bsimpl; lra.
    + qcase_eq cap cur; FinderBounds.bsimpl; lra.
Qed.

Lemma at_start_exact (rows : list row) (i : nat) (s : state) :
  at_start rows i s ->
  Battery.capacity (b s) - Battery.current_load (b s)
  == fold_left cumulative_deficit_step (firstn i rows) 0 /\
  Battery.capacity (b s)
  == max_cumulative_deficit_from 0 (firstn i rows).
Proof.
  intro Hreach.
  pose proof (FinderBounds.at_start_inv rows i s Hreach) as (Hwb & _).
  revert Hwb.
  induction Hreach as [| i s r s' Hreach IH Hnth Hbody]; intro Hwb'.
  - cbn. split; ring.
  - pose proof (FinderBounds.at_start_inv rows i s Hreach) as (Hwb & _).
    destruct (IH Hwb) as [HD HM].
    destruct (FinderBounds.body_continue i s s' r Hbody) as [Hb _].
    pose proof (update_battery_tracks (b s) r _ _ Hwb HD HM) as Htrack.
    cbv zeta in Htrack. rewrite <- Hb in Htrack.
    destruct Htrack as (HD' & HMle & HDle & Hor).
    pose proof (FinderFacts.firstn_skipn_snoc rows 0 i r Hnth) as Hsnoc.
    change (skipn 0 rows) with rows in Hsnoc. rewrite Hsnoc.
    rewrite fold_left_snoc_step.
    split; [exact HD' |].
    pose proof (max_cumulative_deficit_from_snoc (firstn i rows) r 0) as Hmax.
    cbv zeta in Hmax. rewrite fold_left_snoc_step in Hmax.
    destruct Hmax as (H1 & H2 & H3). lra.
Qed.

(** A lossless battery that lacks [d] to be full passes exactly when its
    capacity covers the maximum the cumulative deficit reaches. *)
Lemma sim_lossless_iff (rows : list row) :
  forall d cap cur,
    0 <= d <= cap ->
    cur == cap - d ->
    (sim_battery_247 rows (Battery.Build cap cur) = Some true <->
     max_cumulative_deficit_from d rows <= cap).
Proof.
  induction rows as [| [ren_mw df_dc] rest IH]; intros d cap cur Hd Hcur.
  - cbn. split; [intros _; lra | reflexivity].
  - pose proof (max_cumulative_deficit_from_ge rest
                  (cumulative_deficit_step d (ren_mw, df_dc))) as Hge.
    cbn [max_cumulative_deficit_from].
    unfold cumulative_deficit_step, deficit in *. cbn [fst snd] in *.
    cbn [sim_battery_247 charge discharge Battery_like bind].
    unfold Battery.charge, Battery.discharge, Qgtb.
    cbn [Battery.set_current_load Battery.capacity Battery.current_load].
    qcase 0 (ren_mw - df_dc).
    + qcase (d + (df_dc - ren_mw)) 0;
        qcase cap (cur + (ren_mw - df_dc)); try (exfalso; lra).
      * etransitivity; [apply (IH 0 cap); lra |].
        match goal with |- context [Qltb ?x ?y] => qcase x y end;
          split; intro; lra.
      * etransitivity;
          [apply (IH (d + (df_dc - ren_mw)) cap); lra |].
        match goal with |- context [Qltb ?x ?y] => qcase x y end;
          split; intro; lra.
    + qcase (d + (df_dc - ren_mw)) 0; [exfalso; lra |].
      qcase (cur - - (ren_mw - df_dc)) 0.
      * match goal with
        | |- context [if Qltb ?x ?y then Some false else _] => qcase x y
        end; [| exfalso; lra].
        split; [discriminate |].
        match goal with |- context [Qltb ?x ?y] => qcase x y end;
          intro; exfalso; lra.
      * qcase (- (ren_mw - df_dc)) (- (ren_mw - df_dc)); [exfalso; lra |].
        etransitivity;
          [apply (IH (d + (df_dc - ren_mw)) cap); lra |].
        match goal with |- context [Qltb ?x ?y] => qcase x y end;
          split; intro; lra.
Qed.

End FinderExact.

Lemma finder_result_exact (rows : list row) (q : Q) :
  Finder.calculate_247_battery_capacity rows = Num q ->
  q == max_cumulative_deficit rows.
Proof.
  intro Hres.
  destruct (FinderBounds.result_is_final_state rows q Hres)
    as (s & Hreach & Hcap).
  destruct (FinderBounds.at_start_inv rows _ s Hreach)
    as (_ & (q' & Hq' & Hqcap) & _).
  rewrite Hcap in Hq'. injection Hq' as <-.
  destruct (FinderExact.at_start_exact rows _ s Hreach) as [_ HM].
  rewrite firstn_all in HM. unfold max_cumulative_deficit. lra.
Qed.

Lemma lossless_feasible_iff (rows : list row) (c : Q) :
  0 <= c ->
  (sim_fresh Lossless rows c = Some true <->
   max_cumulative_deficit rows <= c).
Proof.
  intro Hc. cbn [sim_fresh]. unfold max_cumulative_deficit.
  apply (FinderExact.sim_lossless_iff rows 0 c c); [lra | ring].
Qed.

(** What the search leaves behind when it has found a number. *)
Lemma sizer_search_exit
  (m : model) (rows : list row) (max_bsize : Q) (fuel : nat) (r : Q) :
  sizer m fuel rows max_bsize = Some (Num r) ->
  sim_fresh m rows 0 = Some false ->
  exists l u,
    sim_fresh m rows l = Some false /\ sim_fresh m rows u = Some true /\
    0 <= l /\ l < u /\ u - l <= 1 # 10 /\ (r = l \/ r = u).
Proof.
  rewrite sizer_unfold. intros Hr H0. rewrite H0 in Hr. cbn [bind] in Hr.
  destruct (sizer_search m fuel rows 0 max_bsize None [])
    as [[[[l u] med] tested] |] eqn:Hrun; [| discriminate].
  cbn [bind] in Hr.
  qcase_eq u max_bsize; [discriminate |].
  destruct med as [last |]; [| discriminate].
  cbn [bind] in Hr. injection Hr as ->.
  destruct (sizer_search_inv m fuel rows max_bsize l u _ tested Hrun H0)
    as [(Hl & (Hl0 & _) & _ & I4 & I5) Hw].
  destruct I4 as [[Hu _] | (_ & Hfeas & _)]; [tauto |].
  destruct I5 as [[_ Hnone] | (earlier & last & _ & Hm & Hlast & Hlu)];
    [discriminate |].
  injection Hm as <-.
  exists l, u. auto 10.
Qed.

(** X21.  Whenever [find_and_init_capacity input_load] returns on a
    default Battery2 of non-negative capacity, with [input_load >= 0],
    the battery it leaves is large enough: once full, it delivers
    [input_load] in one step of [discharge]. *)
Theorem Battery2_grown_capacity_delivers
  (cap cur input_load : Q) (fuel : nat) (b' : Battery2.t) :
  0 <= cap ->
  0 <= input_load ->
  Battery2.find_and_init_capacity fuel (Battery2.init cap cur) input_load
  = Some b' ->
  exists c',
    b' = Battery2.init c' cur /\
    exists cur',
      Battery2.discharge (Battery2.init c' c') input_load
      = Some (Battery2.init c' cur', input_load).
Proof.
  intros Hcap Hx Hrun.
  unfold Battery2.find_and_init_capacity in Hrun.
  change (Battery2.set_capacity (Battery2.init cap cur)
            (Battery2.capacity (Battery2.init cap cur)
             + input_load * Battery2.eff_d (Battery2.init cap cur)))
    with (Battery2.init (cap + input_load * (21 # 20)) cur) in Hrun.
  change (Battery2.eff_d (Battery2.init cap cur)) with (21 # 20) in Hrun.
  destruct (Battery2.grow_capacity fuel _ _ input_load)
    as [[b1 n] |] eqn:Hgrow; [| discriminate].
  cbn [bind] in Hrun. injection Hrun as <-.
  destruct (grow_capacity_default_exit fuel _ _ _ _ _ _ Hgrow)
    as (c' & Hb & Hc' & Hstop).
  exists c'. split; [exact Hb |].
  rewrite Battery2_default_discharge. cbv zeta. qdiv_norm.
  match goal with |- context [Qltb ?m input_load] => qcase m input_load end.
  - exfalso. min_cases; lra.
  - eexists. reflexivity.
Qed.

Lemma Battery2_grown_capacity_delivers_witness :
  exists c',
    Battery2.find_and_init_capacity 5 (Battery2.init 0 0) 3
    = Some (Battery2.init c' 0) /\
    exists cur',
      Battery2.discharge (Battery2.init c' c') 3
      = Some (Battery2.init c' cur', 3).
Proof.
  assert (Hrun : exists b',
             Battery2.find_and_init_capacity 5 (Battery2.init 0 0) 3
             = Some b')
    by (vm_compute; eexists; reflexivity).
  destruct Hrun as (b' & Hrun).
  destruct (Battery2_grown_capacity_delivers 0 0 3 5 b') as (c' & Hb & Hd);
    [lra | lra | exact Hrun |].
  exists c'. rewrite <- Hb. split; [exact Hrun | exact Hd].
Defined.



(** X23.  On a series of whole numbers, a fresh full lossless battery
    whose capacity [c] is a non-negative whole number passes
    [sim_battery_247] exactly when [c] is at least the maximum cumulative
    deficit of the series.  (Whole numbers of magnitude at most [2^30]:
    there every load the battery takes is exact.) *)
Theorem sim_lossless_passes_iff_capacity_covers (rows : list row) (c : Q) :
  whole_rows rows ->
  whole c ->
  0 <= c ->
  (sim_battery_247 rows (Battery.Build c c) = Some true <->
   max_cumulative_deficit rows <= c).
Proof. intros _ _. exact (lossless_feasible_iff rows c). Qed.

Lemma sim_lossless_passes_iff_capacity_covers_witness :
  sim_battery_247 [(10, 5); (0, 5); (2, 5)] (Battery.Build 8 8) = Some true
  <-> max_cumulative_deficit [(10, 5); (0, 5); (2, 5)] <= 8.
Proof.
  apply (sim_lossless_passes_iff_capacity_covers
           [(10, 5); (0, 5); (2, 5)] 8).
  - whole_rows_tac.
  - apply whole_Z. reflexivity.
  - lra.
Defined.

(** X24.  On a series of at most [2^20] rows of whole numbers, the number
    [calculate_247_battery_capacity] returns is the least capacity that
    works: a fresh full lossless battery of that capacity passes
    [sim_battery_247], and one of any smaller non-negative whole capacity
    fails.  (The capacity the finder accumulates is then a whole number
    below [2^53], hence exact.) *)
Theorem finder_result_is_least_feasible (rows : list row) (q : Q) :
  whole_rows rows ->
  (Z.of_nat (length rows) <= 2 ^ 20)%Z ->
  Finder.calculate_247_battery_capacity rows = Num q ->
  sim_fresh Lossless rows q = Some true /\
  (forall z : Z, (0 <= z)%Z -> inject_Z z < q ->
                 sim_fresh Lossless rows (inject_Z z) = Some false).
Proof.
  intros _ _ Hres.
  pose proof (finder_result_exact rows q Hres) as Hq.
  destruct (FinderResult.result_bounds rows q Hres) as (Hq0 & _).
  split.
  - apply lossless_feasible_iff; lra.
  - intros z Hpos Hc.
    assert (Hz : 0 <= inject_Z z)
      by (change 0 with (inject_Z 0); rewrite <- Zle_Qle; exact Hpos).
    destruct (sim_fresh_total Lossless rows (inject_Z z)) as [[|] E];
      [| exact E].
    apply lossless_feasible_iff in E; lra.
Qed.

Lemma finder_result_is_least_feasible_witness :
  sim_fresh Lossless [(10, 5); (0, 5); (2, 5)] 8 = Some true /\
  (forall z : Z, (0 <= z)%Z -> inject_Z z < 8 ->
                 sim_fresh Lossless [(10, 5); (0, 5); (2, 5)] (inject_Z z)
                 = Some false).
Proof.
  apply (finder_result_is_least_feasible [(10, 5); (0, 5); (2, 5)] 8).
  - whole_rows_tac.
  - vm_compute. discriminate.
  - vm_compute. reflexivity.
Defined.

(** X25.  The two ways of sizing a lossless battery agree within the
    tolerance: when [calculate_247_battery_capacity_b1_sim] returns the
    number [r] and [calculate_247_battery_capacity] the number [q] on the
    same series, then [q - 0.1 <= r < q + 0.1]. *)
Theorem sizer_agrees_with_finder
  (rows : list row) (max_bsize : Q) (fuel : nat) (r q : Q) :
  calculate_247_battery_capacity_b1_sim fuel rows max_bsize = Some (Num r) ->
  Finder.calculate_247_battery_capacity rows = Num q ->
  q - (1 # 10) <= r /\ r < q + (1 # 10).
Proof.
  intros Hr Hres.
  pose proof (finder_result_exact rows q Hres) as Hq.
  destruct (FinderResult.result_bounds rows q Hres) as (Hq0 & _).
  destruct (sim_fresh_total Lossless rows 0) as [[|] H0].
  - change (sizer Lossless fuel rows max_bsize = Some (Num r)) in Hr.
    rewrite sizer_unfold, H0 in Hr. cbn [bind] in Hr. injection Hr as <-.
    apply lossless_feasible_iff in H0; lra.
  - destruct (sizer_search_exit Lossless rows max_bsize fuel r Hr H0)
      as (l & u & Hl & Hu & Hl0 & Hlu & Hw & Hlast).
    apply lossless_feasible_iff in Hu; [| lra].
    assert (Hlq : l < q).
    { destruct (Qlt_le_dec l q) as [Hlt | Hle]; [exact Hlt |].
      exfalso.
      assert (E : sim_fresh Lossless rows l = Some true)
        by (apply lossless_feasible_iff; lra).
      congruence. }
    destruct Hlast as [-> | ->]; lra.
Qed.

Lemma sizer_agrees_with_finder_witness :
  exists r,
    calculate_247_battery_capacity_b1_sim 8 [(10, 5); (0, 5); (2, 5)] 10
    = Some (Num r) /\
    8 - (1 # 10) <= r /\ r < 8 + (1 # 10).
Proof.
  assert (Hr : exists r,
             calculate_247_battery_capacity_b1_sim 8
               [(10, 5); (0, 5); (2, 5)] 10 = Some (Num r))
    by (vm_compute; eexists; reflexivity).
  destruct Hr as [r Hr]. exists r. split; [exact Hr |].
  apply (sizer_agrees_with_finder [(10, 5); (0, 5); (2, 5)] 10 8 r 8 Hr).
  vm_compute. reflexivity.
Defined.
